(** * Egyptian national ID card scanner: corner ordering, confidence score
      and candidate selection

    A shallow embedding of [transform.py] and [card_recognition.py].

    - [Transform] embeds [sort_quadrilateral_corners] on floating-point
      arrays: NumPy's [argmin], [argmax], [sum(axis=1)] and
      [diff(axis=1)] in the format of the input array ([float64] for the
      rescaled corners the scanner passes), and the [float32] array of
      the result.
    - [Scoring] embeds [calculate_egyptian_id_confidence_score] on Python
      strings (sequences of code points) with IEEE binary64 arithmetic.
    - [Scanner] embeds [validate_id_number_region],
      [find_best_card_contour] and [scan_id_card] in a small trace-and-error
      monad; OpenCV and Tesseract are external operations of the record
      [Externals].
    - [Preprocess] embeds the threshold computation of
      [preprocess_for_edge_detection], [Gender] embeds [gen] of
      [gender.py], and [Extractor] the field normalizations of
      [id_card_data_extractor.py]. *)

From Stdlib Require Import String Ascii ZArith NArith List Bool Lia Sorted Permutation.
From Stdlib Require Import Floats.SpecFloat.
Import ListNotations.

Local Open Scope Z_scope.

(* ================================================================== *)
(** ** transform.py *)

Module Transform.

(** *** Floating-point arrays *)

(** A row [(x, y)] of a floating-point array of shape [(n, 2)]. *)
Definition row : Type := (spec_float * spec_float)%type.

Definition is_nan (x : spec_float) : bool :=
  match x with
  | S754_nan => true
  | _ => false
  end.

(** An integer entry converted to binary64, as NumPy does when an integer
    array is multiplied by a Python float. *)
Definition float_of_int (z : Z) : spec_float := binary_normalize 53 1024 z 0 false.

(** [coordinate_scale_ratio]: [height / float(target_height)] with the
    target height 500. *)
Definition scale_ratio (height : Z) : spec_float :=
  SFdiv 53 1024 (float_of_int height) (float_of_int 500).

(** [card_corner_points.reshape(4, 2) * coordinate_scale_ratio]: the
    integer vertices of a contour rescaled to the full-resolution image, a
    binary64 array.  This is the array [apply_perspective_correction]
    passes to [sort_quadrilateral_corners]. *)
Definition scale_corners (ratio : spec_float) (corners : list (Z * Z)) : list row :=
  map (fun p => (SFmul 53 1024 (float_of_int (fst p)) ratio,
                 SFmul 53 1024 (float_of_int (snd p)) ratio))
      corners.

(** The value stored when a number is assigned to an entry of a
    [float32] array: rounded to the nearest binary32 number. *)
Definition to_float32 (x : spec_float) : spec_float :=
  match x with
  | S754_finite s m e => binary_round 24 128 s m e
  | _ => x
  end.

Definition row_to_float32 (p : row) : row := (to_float32 (fst p), to_float32 (snd p)).

(** A binary32 number seen as a binary64 number, without rounding. *)
Definition to_float64 (x : spec_float) : spec_float :=
  match x with
  | S754_finite s m e => binary_round 53 1024 s m e
  | _ => x
  end.

Definition row_to_float64 (p : row) : row := (to_float64 (fst p), to_float64 (snd p)).

(** Two rows hold the same numbers. *)
Definition same_numbers (p q : row) : bool :=
  SFeqb (fst p) (fst q) && SFeqb (snd p) (snd q).

(** *** NumPy's reductions *)

Section Format.

(** The format of the input array: [prec = 53], [emax = 1024] for
    [float64]; [prec = 24], [emax = 128] for [float32]. *)
Variables prec emax : Z.

(** [corner_points.sum(axis=1)]: one entry [x + y] per row, added in the
    format of the array.  NumPy may start the sum from zero; this changes
    at most the sign of a zero result, which no comparison sees. *)
Definition coordinate_sum (p : row) : spec_float := SFadd prec emax (fst p) (snd p).

(** [np.diff(corner_points, axis=1)]: one entry per row, the second column
    minus the first, that is [y - x]. *)
Definition coordinate_difference (p : row) : spec_float :=
  SFsub prec emax (snd p) (fst p).


End Format.

(** The scan shared by [np.argmin] and [np.argmax] on floating-point
    arrays.  [np.argmin] replaces its running value [mp] by the entry [x]
    when [!(x >= mp)], [np.argmax] when [!(x <= mp)]; both stop at the
    first NaN, which is replaced in and never replaced out. *)
Fixpoint first_extreme_from (le : spec_float -> spec_float -> bool)
    (mp : spec_float) (ind i : nat) (l : list spec_float) : nat :=
  match l with
  | [] => ind
  | x :: t =>
      if negb (le mp x)
      then if is_nan x then i else first_extreme_from le x i (S i) t
      else first_extreme_from le mp ind (S i) t
  end.

Definition first_extreme (le : spec_float -> spec_float -> bool)
    (l : list spec_float) : option nat :=
  match l with
  | [] => None
  | x :: t => Some (if is_nan x then 0%nat else first_extreme_from le x 0%nat 1%nat t)
  end.

(** [x >= mp] is [mp <= x]. *)
Definition argmin_le (mp x : spec_float) : bool := SFleb mp x.

(** [x <= mp]. *)
Definition argmax_le (mp x : spec_float) : bool := SFleb x mp.

(** [np.argmin(a)]; raises [ValueError] on an empty array ([None]). *)
Definition argmin (l : list spec_float) : option nat := first_extreme argmin_le l.

(** [np.argmax(a)]. *)
Definition argmax (l : list spec_float) : option nat := first_extreme argmax_le l.

(** [corner_points[np.argmin(keys)]] and [corner_points[np.argmax(keys)]]. *)
Definition row_at_argmin (key : row -> spec_float) (pts : list row) : option row :=
  match argmin (map key pts) with
  | Some i => nth_error pts i
  | None => None
  end.

Definition row_at_argmax (key : row -> spec_float) (pts : list row) : option row :=
  match argmax (map key pts) with
  | Some i => nth_error pts i
  | None => None
  end.

(** [sort_quadrilateral_corners] on an array of format [prec], [emax]:
    rows 0 and 2 of the result come from the sums, rows 1 and 3 from the
    differences, and every row is stored in the [float32] array
    [ordered_rectangle].  [None] stands for the exception NumPy raises.
    Both callers, in [card_recognition.py], pass a [float64] array; the
    result, when it is ordered again, is a [float32] array. *)
Definition sort_quadrilateral_corners (prec emax : Z) (corner_points : list row)
  : option (list row) :=
  match row_at_argmin (coordinate_sum prec emax) corner_points,
        row_at_argmax (coordinate_sum prec emax) corner_points,
        row_at_argmin (coordinate_difference prec emax) corner_points,
        row_at_argmax (coordinate_difference prec emax) corner_points with
  | Some top_left, Some bottom_right, Some top_right, Some bottom_left =>
      Some (map row_to_float32 [top_left; top_right; bottom_right; bottom_left])
  | _, _, _, _ => None
  end.

(** *** Statements about a result *)

(** [p] is a row of [pts] whose key NumPy takes for the least: it is a
    NaN, or no key is below it.  Likewise for the greatest. *)
Definition least (key : row -> spec_float) (pts : list row) (p : row) : Prop :=
  In p pts /\
  (is_nan (key p) = true \/ forall q, In q pts -> SFleb (key p) (key q) = true).

Definition greatest (key : row -> spec_float) (pts : list row) (p : row) : Prop :=
  In p pts /\
  (is_nan (key p) = true \/ forall q, In q pts -> SFleb (key q) (key p) = true).

(** One of two numbers is strictly below the other (neither is a NaN). *)
Definition strictly_ordered (a b : spec_float) : bool := SFltb a b || SFltb b a.

(** No two different rows have the same computed [x + y] or the same
    computed [y - x]. *)
Definition no_key_ties (prec emax : Z) (pts : list row) : Prop :=
  forall p q, In p pts -> In q pts -> p <> q ->
    strictly_ordered (coordinate_sum prec emax p) (coordinate_sum prec emax q) = true /\
    strictly_ordered (coordinate_difference prec emax p)
                     (coordinate_difference prec emax q) = true.

(** Integer corners as a [float64] array, [np.array(corners,
    dtype="float64")]. *)
Definition rows_of_ints (corners : list (Z * Z)) : list row :=
  map (fun p => (float_of_int (fst p), float_of_int (snd p))) corners.

(** *** Shape of the input quadrilateral *)

(** Cross product of [b - a] and [c - b]. *)
Definition turn (a b c : Z * Z) : Z :=
  (fst b - fst a) * (snd c - snd b) - (snd b - snd a) * (fst c - fst b).

(** The closed path [a b c d] turns strictly the same way at every corner. *)
Definition strictly_convex_cycle (a b c d : Z * Z) : bool :=
  let t1 := turn a b c in
  let t2 := turn b c d in
  let t3 := turn c d a in
  let t4 := turn d a b in
  ((0 <? t1) && (0 <? t2) && (0 <? t3) && (0 <? t4))
  || ((t1 <? 0) && (t2 <? 0) && (t3 <? 0) && (t4 <? 0)).

(** Four points, in any order, are the corners of a convex non-degenerate
    quadrilateral when one of the three cyclic arrangements is strictly
    convex. *)
Definition convex_nondegenerate (pts : list (Z * Z)) : bool :=
  match pts with
  | [a; b; c; d] =>
      strictly_convex_cycle a b c d
      || strictly_convex_cycle a b d c
      || strictly_convex_cycle a c b d
  | _ => false
  end.

(** *** The order of the numbers *)

(** A place on the number line for every number: the sign class, then the
    exponent, then the mantissa, mirrored for negative numbers. *)
Definition rank (x : spec_float) : Z * Z * Z :=
  match x with
  | S754_infinity true => (-2, 0, 0)
  | S754_finite true m e => (-1, - e, - Zpos m)
  | S754_zero _ => (0, 0, 0)
  | S754_finite false m e => (1, e, Zpos m)
  | S754_infinity false => (2, 0, 0)
  | S754_nan => (3, 0, 0)
  end.

Definition rank_le (x y : spec_float) : Prop :=
  let '(a, b, c) := rank x in
  let '(a', b', c') := rank y in
  a < a' \/ (a = a' /\ (b < b' \/ (b = b' /\ c <= c'))).

End Transform.

(* ================================================================== *)
(** ** card_recognition.py: the confidence score *)

Module Scoring.

(** *** Python strings *)

(** A Python [str] is a sequence of Unicode code points. *)
Definition codepoint : Type := N.
Definition pystr : Type := list codepoint.

(** A string literal made of ASCII characters. *)
Definition py (s : string) : pystr := map N_of_ascii (list_ascii_of_string s).

(** The part of the interpreter's Unicode database that the code consults:
    [cp_isdigit c] is [c.isdigit()] for a one-character string, and
    [cp_decimal c] is the value [int()] gives to the character ([None] when
    [int()] rejects it, as it does for the superscript two).  The ASCII
    block is fixed: there the digits are the characters 0 to 9. *)
Record UnicodeData : Type := {
  cp_isdigit : codepoint -> bool;
  cp_decimal : codepoint -> option N;
  ascii_isdigit : forall c, (c < 128)%N ->
    cp_isdigit c = ((48 <=? c) && (c <=? 57))%N;
  ascii_decimal : forall c, (c < 128)%N ->
    cp_decimal c = if ((48 <=? c) && (c <=? 57))%N then Some (c - 48)%N else None
}.

Definition is_ascii_digit (c : codepoint) : bool := ((48 <=? c) && (c <=? 57))%N.

(** [s.isdigit()]: every character is a digit and there is at least one. *)
Definition str_isdigit (U : UnicodeData) (s : pystr) : bool :=
  match s with
  | [] => false
  | _ => forallb (cp_isdigit U) s
  end.

(** [int(s)] for a string of digit characters: [None] is [ValueError]. *)
Definition py_int (U : UnicodeData) (s : pystr) : option N :=
  match s with
  | [] => None
  | _ =>
      fold_left
        (fun acc c =>
           match acc, cp_decimal U c with
           | Some a, Some d => Some (10 * a + d)%N
           | _, _ => None
           end)
        s (Some 0%N)
  end.

(** The slice [s[i:j]] for [0 <= i <= j]. *)
Definition slice (i j : nat) (s : pystr) : pystr := firstn (j - i) (skipn i s).

Definition pystr_eqb (a b : pystr) : bool :=
  if list_eq_dec N.eq_dec a b then true else false.

(** [x in collection] for a tuple or a set of strings. *)
Definition str_in (x : pystr) (l : list pystr) : bool := existsb (pystr_eqb x) l.

(** *** Python floats: IEEE 754 binary64 *)

Definition float : Type := spec_float.

Definition float_add : float -> float -> float := SFadd 53 1024.

(** The literals of the function, each the binary64 number nearest to the
    decimal written in the source. *)
Definition float_0_0 : float := S754_zero false.
Definition float_0_10 : float := S754_finite false 7205759403792794 (-56).
Definition float_0_20 : float := S754_finite false 7205759403792794 (-55).
Definition float_0_35 : float := S754_finite false 6305039478318694 (-54).
Definition float_1_0 : float := S754_finite false 4503599627370496 (-52).

(** Numbers the claims compare the score with. *)
Definition float_0_80 : float := S754_finite false 7205759403792794 (-53).
Definition float_0_79 : float := S754_finite false 7115687411245384 (-53).

(** [m * 2^e] is a normal binary64 number and no binary64 number is nearer
    to [num / den]. *)
Definition nearest_binary64 (num den : Z) (x : float) : bool :=
  match x with
  | S754_finite false m e =>
      (2 ^ 52 <=? Zpos m) && (Zpos m <? 2 ^ 53) && (e <? 0) &&
      (2 * Z.abs (Zpos m * den - num * 2 ^ (- e)) <=? den)
  | _ => false
  end.

(** [min(a, b)] on two arguments: the first one unless the second is
    strictly smaller. *)
Definition py_min (a b : float) : float := if SFltb b a then b else a.

(** *** calculate_egyptian_id_confidence_score *)

Definition valid_governorate_codes : list pystr :=
  map py
    ["01"; "02"; "03"; "04";
     "11"; "12"; "13"; "14"; "15"; "16"; "17"; "18"; "19";
     "21"; "22"; "23"; "24"; "25"; "26"; "27"; "28"; "29";
     "31"; "32"; "33"; "34"; "35";
     "88"]%string.

Definition calculate_egyptian_id_confidence_score
    (U : UnicodeData) (id_number : pystr) : float :=
  if match id_number with [] => true | _ => false end
     || negb (str_isdigit U id_number)
  then float_0_0
  else
    let confidence_score := float_0_0 in
    (* century digit *)
    let confidence_score :=
      if (1 <=? length id_number)%nat
         && str_in (slice 0 1 id_number) [py "2"; py "3"]
      then float_add confidence_score float_0_10
      else confidence_score in
    (* month and day *)
    let confidence_score :=
      if (7 <=? length id_number)%nat then
        let month_str := slice 3 5 id_number in
        let day_str := slice 5 7 id_number in
        if str_isdigit U month_str && str_isdigit U day_str then
          match py_int U month_str with
          | None => confidence_score
          | Some month =>
              match py_int U day_str with
              | None => confidence_score
              | Some day =>
                  let confidence_score :=
                    if ((1 <=? month) && (month <=? 12))%N
                    then float_add confidence_score float_0_35
                    else confidence_score in
                  if ((1 <=? day) && (day <=? 31))%N
                  then float_add confidence_score float_0_35
                  else confidence_score
              end
          end
        else confidence_score
      else confidence_score in
    (* governorate code *)
    let confidence_score :=
      if (9 <=? length id_number)%nat then
        let governorate_code := slice 7 9 id_number in
        if str_in governorate_code valid_governorate_codes
        then float_add confidence_score float_0_20
        else confidence_score
      else confidence_score in
    py_min confidence_score float_1_0.

(** *** The four checks, one by one *)

Definition add_if (b : bool) (acc w : float) : float :=
  if b then float_add acc w else acc.

(** The score of an identifier that passes exactly the given checks. *)
Definition score_of_checks (century month day governorate : bool) : float :=
  py_min
    (add_if governorate
       (add_if day
          (add_if month
             (add_if century float_0_0 float_0_10)
             float_0_35)
          float_0_35)
       float_0_20)
    float_1_0.

Definition century_check (id_number : pystr) : bool :=
  (1 <=? length id_number)%nat && str_in (slice 0 1 id_number) [py "2"; py "3"].

(** Both numbers of the date parse: no [ValueError] in the guarded block. *)
Definition date_parses (U : UnicodeData) (id_number : pystr) : bool :=
  (7 <=? length id_number)%nat
  && str_isdigit U (slice 3 5 id_number) && str_isdigit U (slice 5 7 id_number)
  && match py_int U (slice 3 5 id_number), py_int U (slice 5 7 id_number) with
     | Some _, Some _ => true
     | _, _ => false
     end.

Definition month_check (U : UnicodeData) (id_number : pystr) : bool :=
  date_parses U id_number
  && match py_int U (slice 3 5 id_number) with
     | Some month => ((1 <=? month) && (month <=? 12))%N
     | None => false
     end.

Definition day_check (U : UnicodeData) (id_number : pystr) : bool :=
  date_parses U id_number
  && match py_int U (slice 5 7 id_number) with
     | Some day => ((1 <=? day) && (day <=? 31))%N
     | None => false
     end.

Definition governorate_check (id_number : pystr) : bool :=
  (9 <=? length id_number)%nat
  && str_in (slice 7 9 id_number) valid_governorate_codes.

(** The score contains the month's 0.35: it is the score of an identifier
    passing the month check, whatever the other three checks say. *)
Definition includes_month_contribution (score : float) : Prop :=
  exists century day governorate,
    score = score_of_checks century true day governorate.

(** *** A fragment of the Unicode database *)

(** ASCII digits, the Arabic-Indic and Extended Arabic-Indic digits (all
    decimal), and the superscripts one, two and three (digits that [int()]
    rejects). *)
Definition basic_isdigit (c : codepoint) : bool :=
  (((48 <=? c) && (c <=? 57))
   || ((1632 <=? c) && (c <=? 1641))
   || ((1776 <=? c) && (c <=? 1785))
   || (c =? 178) || (c =? 179) || (c =? 185))%N.

Definition basic_decimal (c : codepoint) : option N :=
  if ((48 <=? c) && (c <=? 57))%N then Some (c - 48)%N
  else if ((1632 <=? c) && (c <=? 1641))%N then Some (c - 1632)%N
  else if ((1776 <=? c) && (c <=? 1785))%N then Some (c - 1776)%N
  else None.

Definition basic_unicode : UnicodeData.
Proof.
  refine {| cp_isdigit := basic_isdigit; cp_decimal := basic_decimal |}.
  - intros c H. unfold basic_isdigit.
    destruct (N.leb_spec 1632 c); [lia|].
    destruct (N.leb_spec 1776 c); [lia|].
    destruct (N.eqb_spec c 178); [lia|].
    destruct (N.eqb_spec c 179); [lia|].
    destruct (N.eqb_spec c 185); [lia|].
    cbn. now rewrite !orb_false_r.
  - intros c H. unfold basic_decimal.
    destruct ((48 <=? c) && (c <=? 57))%N; [reflexivity|].
    destruct (N.leb_spec 1632 c); [lia|].
    destruct (N.leb_spec 1776 c); [lia|].
    reflexivity.
Defined.

End Scoring.

(* ================================================================== *)
(** ** card_recognition.py: validation, candidate selection, scan *)

Module Scanner.
Import Transform Scoring.

(** A vertex of a contour: integer pixel coordinates [(x, y)]. *)
Definition point : Type := (Z * Z)%type.

(** The array of points returned by [cv2.approxPolyDP]. *)
Definition polygon : Type := list point.

(** The two ways [validate_id_number_region] calls Tesseract:
    [lang="ara_number"], and [lang="ara+eng"] with the digit whitelist. *)
Inductive ocr_mode : Type := AraNumber | AraEngWhitelist.

(** [str.maketrans] table of [validate_id_number_region]: Arabic-Indic
    (U+0660..U+0669) and Extended Arabic-Indic (U+06F0..U+06F9) digits go to
    ASCII digits, every other character stays. *)
Definition arabic_to_ascii_translation (c : codepoint) : codepoint :=
  if ((1632 <=? c) && (c <=? 1641))%N then (c - 1632 + 48)%N
  else if ((1776 <=? c) && (c <=? 1785))%N then (c - 1776 + 48)%N
  else c.

Definition invalid_side_message (card_side_type : string) : string :=
  ("Invalid card_side_type: " ++ card_side_type
   ++ ". Must be 'front' or 'back'")%string.

Definition load_failure_message (image_path : string) : string :=
  ("Could not load image from path: " ++ image_path)%string.

Definition no_quadrilateral_message : string :=
  ("No suitable quadrilateral contour found. "
   ++ "Ensure the ID card is clearly visible and well-lit.")%string.

Section Pipeline.

(** Images, raw contours, and the exception values of OpenCV and
    Tesseract ([cv2.error], [TesseractError], the [RuntimeError] of a
    timeout, ...). *)
Context {image contour lib_error : Type}.

(** Exceptions, all subclasses of [Exception]. *)
Inductive exn : Type :=
| ValueError (msg : string)
| RuntimeError (msg : string)
| LibraryError (e : lib_error).

Inductive log_line : Type :=
| IdValidation (digits : pystr) (len : nat) (confidence : float)
| WarningFailed (e : exn)
| WarningFallback
| Success (card_side_type output_file_path : string).

(** What a run does to the outside: library calls and printed lines. *)
Inductive event : Type :=
| Imread (image_path : string)
| FindContours (edges : image)
| PerspectiveCorrection (full_resolution_image : image) (corners : polygon)
| ImageToString (region : image) (mode : ocr_mode)
| Imwrite (output_file_path : string) (img : image)
| Print (line : log_line).

(** The external operations.  [warp full corners] is
    [apply_perspective_correction(full, corners * coordinate_scale_ratio)]:
    the corners rescaled to the full-resolution image (floating-point
    coordinates), ordered, and passed to [cv2.getPerspectiveTransform] and
    [cv2.warpPerspective]; the scale ratio is a function of the full
    image.  [resize_to_processing_height] is the [cv2.resize] call of
    [load_and_resize_image], which raises when the computed width
    [int(round(width / scale_ratio))] is 0.  The other preprocessing
    calls on a decoded image do not raise. *)
Record Externals : Type := {
  unicode : UnicodeData;
  imread : string -> option image;
  resize_to_processing_height : image -> lib_error + image;
  detect_edges : image -> image;
  findContours : image -> list contour;
  contourArea : contour -> Z;
  approxPolyDP : contour -> polygon;
  warp : image -> polygon -> lib_error + image;
  resize_to_card : image -> image;
  id_number_region : image -> image;
  image_to_string : image -> ocr_mode -> lib_error + pystr
}.

Variable ext : Externals.

(** *** Computations: a trace of events, and a result or an exception *)

Definition M (A : Type) : Type := list event -> (exn + A) * list event.

Definition ret {A} (a : A) : M A := fun t => (inr a, t).

Definition raise {A} (e : exn) : M A := fun t => (inl e, t).

Definition bind {A B} (m : M A) (k : A -> M B) : M B :=
  fun t =>
    match m t with
    | (inr a, t') => k a t'
    | (inl e, t') => (inl e, t')
    end.

Definition emit (e : event) : M unit := fun t => (inr tt, t ++ [e]).

(** [try: body except Exception as e: handler(e)]. *)
Definition try_except {A} (body : M A) (handler : exn -> M A) : M A :=
  fun t =>
    match body t with
    | (inr a, t') => (inr a, t')
    | (inl e, t') => handler e t'
    end.

Notation "x <- m ;; k" := (bind m (fun x => k))
  (at level 61, m at next level, right associativity).
Notation "m ;;; k" := (bind m (fun _ => k))
  (at level 61, right associativity).

(** *** load_and_resize_image *)

Definition load_and_resize_image (image_path : string) : M (image * image) :=
  emit (Imread image_path) ;;;
  match imread ext image_path with
  | None => raise (ValueError (load_failure_message image_path))
  | Some original_image =>
      match resize_to_processing_height ext original_image with
      | inl e => raise (LibraryError e)
      | inr resized_image => ret (original_image, resized_image)
      end
  end.

(** *** apply_perspective_correction, on rescaled corners *)

Definition apply_perspective_correction
    (full_resolution_image : image) (corners : polygon) : M image :=
  emit (PerspectiveCorrection full_resolution_image corners) ;;;
  match warp ext full_resolution_image corners with
  | inl e => raise (LibraryError e)
  | inr corrected => ret corrected
  end.

(** *** extract_and_transform_card

    Returns the perspective-corrected card and the standardized card (the
    debug visualization is left out). *)
Definition extract_and_transform_card
    (card_corner_points : option polygon) (full_resolution_image : image)
  : M (option image * option image) :=
  match card_corner_points with
  | None => ret (None, None)
  | Some corners =>
      perspective_corrected_card <-
        apply_perspective_correction full_resolution_image corners ;;
      ret (Some perspective_corrected_card,
           Some (resize_to_card ext perspective_corrected_card))
  end.

(** *** validate_id_number_region *)

Definition call_image_to_string (region : image) (mode : ocr_mode) : M pystr :=
  emit (ImageToString region mode) ;;;
  match image_to_string ext region mode with
  | inl e => raise (LibraryError e)
  | inr text => ret text
  end.

Definition extract_digits (raw_ocr_text : pystr) : pystr :=
  filter (cp_isdigit (unicode ext)) (map arabic_to_ascii_translation raw_ocr_text).

Definition validate_id_number_region (standardized_card_image : image)
  : M (bool * pystr) :=
  let region := id_number_region ext standardized_card_image in
  raw_ocr_text <-
    try_except (call_image_to_string region AraNumber)
               (fun _ => call_image_to_string region AraEngWhitelist) ;;
  let extracted_digit_string := extract_digits raw_ocr_text in
  let is_valid_id_number := (12 <=? length extracted_digit_string)%nat in
  ret (is_valid_id_number, extracted_digit_string).

(** *** find_best_card_contour *)

(** [sorted(contours, key=cv2.contourArea, reverse=True)]: descending,
    contours of equal area keep their order. *)
Fixpoint insert_by_area (c : contour) (l : list contour) : list contour :=
  match l with
  | [] => [c]
  | d :: l' =>
      if contourArea ext c <? contourArea ext d
      then d :: insert_by_area c l'
      else c :: d :: l'
  end.

Definition sorted_by_area (l : list contour) : list contour :=
  fold_right insert_by_area [] l.

Definition largest_contours (edge_detected_image : image) : list contour :=
  firstn 5 (sorted_by_area (findContours ext edge_detected_image)).

(** The body of the [try] of one iteration; the result tells whether the
    iteration ends in [break]. *)
Definition try_candidate
    (simplified_contour : polygon) (full_resolution_image : image) : M bool :=
  extracted <-
    extract_and_transform_card (Some simplified_contour) full_resolution_image ;;
  match snd extracted with
  | Some candidate_card_image =>
      validated <- validate_id_number_region candidate_card_image ;;
      let is_valid_id_number := fst validated in
      let extracted_digit_string := snd validated in
      let id_confidence_score :=
        calculate_egyptian_id_confidence_score (unicode ext)
          extracted_digit_string in
      emit (Print (IdValidation extracted_digit_string
                     (length extracted_digit_string) id_confidence_score)) ;;;
      ret is_valid_id_number
  | None => ret false
  end.

(** The [except Exception] clause of the loop: print a warning, go on. *)
Definition warn_and_continue (processing_error : exn) : M bool :=
  emit (Print (WarningFailed processing_error)) ;;; ret false.

(** The [for] loop.  The state is [fallback_quadrilateral]; the result is
    [(best_validated_contour, fallback_quadrilateral)] when the loop is
    left, by [break] or by exhaustion. *)
Fixpoint candidate_loop
    (contours : list contour) (full_resolution_image : image)
    (fallback_quadrilateral : option polygon)
  : M (option polygon * option polygon) :=
  match contours with
  | [] => ret (None, fallback_quadrilateral)
  | current_contour :: rest =>
      let simplified_contour := approxPolyDP ext current_contour in
      if (length simplified_contour =? 4)%nat then
        let fallback_quadrilateral :=
          match fallback_quadrilateral with
          | None => Some simplified_contour
          | Some _ => fallback_quadrilateral
          end in
        accepted <-
          try_except
            (try_candidate simplified_contour full_resolution_image)
            warn_and_continue ;;
        if accepted
        then ret (Some simplified_contour, fallback_quadrilateral)
        else candidate_loop rest full_resolution_image fallback_quadrilateral
      else candidate_loop rest full_resolution_image fallback_quadrilateral
  end.

Definition find_best_card_contour
    (edge_detected_image full_resolution_image : image) : M polygon :=
  emit (FindContours edge_detected_image) ;;;
  state <- candidate_loop (largest_contours edge_detected_image)
             full_resolution_image None ;;
  best_validated_contour <-
    match fst state, snd state with
    | None, Some fallback_quadrilateral =>
        emit (Print WarningFallback) ;;; ret (Some fallback_quadrilateral)
    | best, _ => ret best
    end ;;
  match best_validated_contour with
  | None => raise (RuntimeError no_quadrilateral_message)
  | Some best => ret best
  end.

(** *** scan_id_card *)

Definition scan_id_card (input_image_path card_side_type : string) : M image :=
  loaded <- load_and_resize_image input_image_path ;;
  let full_resolution_image := fst loaded in
  let processing_sized_image := snd loaded in
  let edge_detected_image := detect_edges ext processing_sized_image in
  optimal_card_contour <-
    find_best_card_contour edge_detected_image full_resolution_image ;;
  perspective_corrected_card <-
    apply_perspective_correction full_resolution_image optimal_card_contour ;;
  let final_processed_card := resize_to_card ext perspective_corrected_card in
  output_file_path <-
    (if String.eqb card_side_type "front" then ret "temp_front.jpg"%string
     else if String.eqb card_side_type "back" then ret "temp_back.jpg"%string
     else raise (ValueError (invalid_side_message card_side_type))) ;;
  emit (Imwrite output_file_path final_processed_card) ;;;
  emit (Print (Success card_side_type output_file_path)) ;;;
  ret final_processed_card.

(** *** What the oracles say about one candidate *)

(** The text Tesseract returns for a region: the first call, or the
    second one when the first raises. *)
Definition recognized_text (region : image) : lib_error + pystr :=
  match image_to_string ext region AraNumber with
  | inr text => inr text
  | inl _ => image_to_string ext region AraEngWhitelist
  end.

(** Normalization of a candidate succeeds: the perspective transform
    returns an image. *)
Definition normalizes (full_resolution_image : image) (c : contour) : bool :=
  (length (approxPolyDP ext c) =? 4)%nat
  && match warp ext full_resolution_image (approxPolyDP ext c) with
     | inr _ => true
     | inl _ => false
     end.

(** A candidate passes the validity gate: it has four corners, its
    normalization and its text recognition succeed, and at least 12
    digits are extracted. *)
Definition passes_gate (full_resolution_image : image) (c : contour) : bool :=
  (length (approxPolyDP ext c) =? 4)%nat
  && match warp ext full_resolution_image (approxPolyDP ext c) with
     | inr corrected =>
         match recognized_text
                 (id_number_region ext (resize_to_card ext corrected)) with
         | inr text => (12 <=? length (extract_digits text))%nat
         | inl _ => false
         end
     | inl _ => false
     end.

Definition is_quadrilateral (c : contour) : bool :=
  (length (approxPolyDP ext c) =? 4)%nat.

(** The events of the text recognition of a region. *)
Definition ocr_events (region : image) : list event :=
  ImageToString region AraNumber ::
  match image_to_string ext region AraNumber with
  | inr _ => []
  | inl _ => [ImageToString region AraEngWhitelist]
  end.

(** The events of one guarded iteration on a four-corner candidate. *)
Definition attempt_events
    (full_resolution_image : image) (simplified_contour : polygon)
  : list event :=
  PerspectiveCorrection full_resolution_image simplified_contour ::
  match warp ext full_resolution_image simplified_contour with
  | inl e => [Print (WarningFailed (LibraryError e))]
  | inr corrected =>
      let region := id_number_region ext (resize_to_card ext corrected) in
      ocr_events region ++
      match recognized_text region with
      | inl e => [Print (WarningFailed (LibraryError e))]
      | inr text =>
          [Print (IdValidation (extract_digits text)
                    (length (extract_digits text))
                    (calculate_egyptian_id_confidence_score (unicode ext)
                       (extract_digits text)))]
      end
  end.

(** The events of the iterations over a list of candidates, all of them
    carried out. *)
Definition loop_events
    (full_resolution_image : image) (contours : list contour) : list event :=
  flat_map
    (fun c =>
       if is_quadrilateral c
       then attempt_events full_resolution_image (approxPolyDP ext c)
       else [])
    contours.

(** The fallback after an iteration on the four-corner candidate [q]. *)
Definition held_or (fallback_quadrilateral : option polygon) (q : polygon)
  : option polygon :=
  match fallback_quadrilateral with
  | None => Some q
  | Some _ => fallback_quadrilateral
  end.

(** The fallback after iterating over [contours]: the one already held,
    or else the first candidate with four corners. *)
Definition fallback_after
    (contours : list contour) (fallback_quadrilateral : option polygon)
  : option polygon :=
  match fallback_quadrilateral with
  | Some _ => fallback_quadrilateral
  | None => option_map (approxPolyDP ext) (find is_quadrilateral contours)
  end.

(** The candidates the loop iterates over before it is left: all of them,
    or those up to the first one that passes the gate. *)
Fixpoint evaluated (full_resolution_image : image) (contours : list contour)
  : list contour :=
  match contours with
  | [] => []
  | c :: rest =>
      if passes_gate full_resolution_image c then [c]
      else c :: evaluated full_resolution_image rest
  end.

(** Steps 1 to 5 of [scan_id_card] up to the final resize, before the
    card side is looked at. *)
Definition detect_and_correct (input_image_path : string) : M image :=
  loaded <- load_and_resize_image input_image_path ;;
  let full_resolution_image := fst loaded in
  let processing_sized_image := snd loaded in
  let edge_detected_image := detect_edges ext processing_sized_image in
  optimal_card_contour <-
    find_best_card_contour edge_detected_image full_resolution_image ;;
  perspective_corrected_card <-
    apply_perspective_correction full_resolution_image optimal_card_contour ;;
  ret (resize_to_card ext perspective_corrected_card).

End Pipeline.

Arguments exn : clear implicits.
Arguments log_line : clear implicits.
Arguments event : clear implicits.
Arguments Externals : clear implicits.
Arguments M : clear implicits.

(** *** Concrete externals for examples

    An image is named by the corners it was cut from (the photograph is
    [[]]), a contour is a pair of its area and its approximation, and a
    library error is its message.  The file [narrow.jpg] holds a
    photograph one pixel wide and 1001 pixels high, named by its size:
    its width at the processing height is [int(round(1 / 2.002))], that
    is 0, and [cv2.resize] raises. *)

Definition point_eq_dec (p q : point) : {p = q} + {p <> q}.
Proof. decide equality; apply Z.eq_dec. Defined.

Definition polygon_eqb (a b : polygon) : bool :=
  if list_eq_dec point_eq_dec a b then true else false.

Definition narrow_photograph : polygon := [(1, 1001)].

Definition example_externals
    (contours : list (Z * polygon))
    (warp_fails : polygon -> bool)
    (text_of : polygon -> option pystr)
  : Externals polygon (Z * polygon) string :=
  {| unicode := basic_unicode;
     imread := fun path =>
       if String.eqb path "missing.jpg" then None
       else if String.eqb path "narrow.jpg" then Some narrow_photograph
       else Some [];
     resize_to_processing_height := fun img =>
       if polygon_eqb img narrow_photograph then inl "cv2.error"%string
       else inr img;
     detect_edges := fun img => img;
     findContours := fun _ => contours;
     contourArea := fst;
     approxPolyDP := snd;
     warp := fun _ corners =>
       if warp_fails corners then inl "cv2.error"%string else inr corners;
     resize_to_card := fun img => img;
     id_number_region := fun img => img;
     image_to_string := fun region _ =>
       match text_of region with
       | Some text => inr text
       | None => inl "TesseractError"%string
       end |}.

Definition quad_large : polygon := [(10, 10); (410, 12); (408, 260); (12, 258)].
Definition quad_card : polygon := [(100, 200); (300, 50); (350, 250); (80, 300)].
Definition quad_small : polygon := [(20, 20); (60, 20); (60, 45); (20, 45)].
Definition pentagon : polygon := [(0, 0); (450, 0); (470, 150); (450, 300); (0, 300)].

(** A frame, a too-short reading, a 12-digit reading of low confidence and
    a 14-digit reading of full confidence, found in no particular order. *)
Definition world_two_valid : Externals polygon (Z * polygon) string :=
  example_externals
    [(1000, quad_small); (90000, quad_large); (135000, pentagon); (40000, quad_card)]
    (fun _ => false)
    (fun region =>
       if polygon_eqb region quad_large then Some (py "12345")
       else if polygon_eqb region quad_card then Some (py "000000000000")
       else if polygon_eqb region quad_small then Some (py "29901230112345")
       else None).

(** The largest quadrilateral cannot be warped; the next one is warped and
    read, but too few digits come out. *)
Definition world_first_fails : Externals polygon (Z * polygon) string :=
  example_externals
    [(90000, quad_large); (40000, quad_card)]
    (fun corners => polygon_eqb corners quad_large)
    (fun region =>
       if polygon_eqb region quad_card then Some (py "123") else None).

(** No contour at all. *)
Definition world_no_contour : Externals polygon (Z * polygon) string :=
  example_externals [] (fun _ => false) (fun _ => None).

End Scanner.


(* ================================================================== *)
(** ** Reading a trace *)

Module Observations.
Import Transform Scoring Scanner.

Section Events.

Context {image lib_error : Type}.

(** Calls of [apply_perspective_correction]. *)
Definition is_correction (ev : event image lib_error) : bool :=
  match ev with
  | PerspectiveCorrection _ _ => true
  | _ => false
  end.

(** Calls of [image_to_string]. *)
Definition is_ocr_call (ev : event image lib_error) : bool :=
  match ev with
  | ImageToString _ _ => true
  | _ => false
  end.

(** Calls of [cv2.imwrite]. *)
Definition is_imwrite (ev : event image lib_error) : bool :=
  match ev with
  | Imwrite _ _ => true
  | _ => false
  end.

(** The line printed when the fallback contour is used. *)
Definition is_fallback_warning (ev : event image lib_error) : bool :=
  match ev with
  | Print WarningFallback => true
  | _ => false
  end.

Definition count (f : event image lib_error -> bool)
    (t : list (event image lib_error)) : nat :=
  length (filter f t).

End Events.

(** The characters of the three digit alphabets of the translation table
    of [validate_id_number_region]. *)
Definition is_known_digit (c : codepoint) : bool :=
  (((48 <=? c) && (c <=? 57))
   || ((1632 <=? c) && (c <=? 1641))
   || ((1776 <=? c) && (c <=? 1785)))%N.

End Observations.

(* ================================================================== *)
(** ** card_recognition.py: the thresholds of the edge detector *)

Module Preprocess.
Import Scoring.

Definition float_mul : float -> float -> float := SFmul 53 1024.

(** The literals [0.66] and [1.33] and the bound [255]. *)
Definition float_0_66 : float := S754_finite false 5944751508129055 (-53).
Definition float_1_33 : float := S754_finite false 5989787504402760 (-52).
Definition float_255 : float := S754_finite false 8972014882652160 (-45).

(** [int(x)] on a float: the integer part, towards zero; [None] for an
    infinity or a NaN, on which [int] raises. *)
Definition float_to_int (x : float) : option Z :=
  match x with
  | S754_zero _ => Some 0
  | S754_finite s m e =>
      let magnitude :=
        if 0 <=? e then Zpos m * 2 ^ e else Z.quot (Zpos m) (2 ^ (- e)) in
      Some (if s then - magnitude else magnitude)
  | S754_infinity _ => None
  | S754_nan => None
  end.

(** The median of an array of bytes is a byte or the mean of two bytes:
    [k / 2] for an integer [k] between 0 and 510. *)
Definition half (k : Z) : float := binary_normalize 53 1024 k (-1) false.

(** [int(max(0, 0.66 * median))]: [max] returns its first argument, the
    integer 0, unless the second is strictly larger. *)
Definition canny_lower_threshold (median_pixel_intensity : float) : option Z :=
  let scaled := float_mul float_0_66 median_pixel_intensity in
  if SFltb float_0_0 scaled then float_to_int scaled else Some 0.

(** [int(min(255, 1.33 * median))]: [min] returns its first argument, the
    integer 255, unless the second is strictly smaller. *)
Definition canny_upper_threshold (median_pixel_intensity : float) : option Z :=
  let scaled := float_mul float_1_33 median_pixel_intensity in
  if SFltb scaled float_255 then float_to_int scaled else Some 255.

(** The medians on which the two thresholds are the exact integer parts
    of [0.66 * median] and of [min(255, 1.33 * median)], and are ordered
    between 0 and 255. *)
Definition thresholds_exact (k : Z) : bool :=
  match canny_lower_threshold (half k), canny_upper_threshold (half k) with
  | Some lower, Some upper =>
      (lower =? (33 * k) / 100) && (upper =? Z.min 255 ((133 * k) / 200))
      && (0 <=? lower) && (lower <=? upper) && (upper <=? 255)
  | _, _ => false
  end.

End Preprocess.

(* ================================================================== *)
(** ** gender.py *)

Module Gender.
Import Scoring.

(** The three answers of [gen]: unknown, female, male (Arabic words,
    written as code points). *)
Definition unknown : pystr :=
  [1594; 1610; 1585; 32; 1605; 1593; 1585; 1608; 1601]%N.
Definition female : pystr := [1571; 1606; 1579; 1609]%N.
Definition male : pystr := [1584; 1603; 1585]%N.

(** The dictionary of the [except] branch: the Arabic-Indic digits
    U+0660 to U+0669 and their values. *)
Definition arabic_indic_map : list (codepoint * N) :=
  [(1632, 0); (1633, 1); (1634, 2); (1635, 3); (1636, 4);
   (1637, 5); (1638, 6); (1639, 7); (1640, 8); (1641, 9)]%N.

Fixpoint dict_get (d : list (codepoint * N)) (key : codepoint) : option N :=
  match d with
  | [] => None
  | (k, v) :: rest => if (k =? key)%N then Some v else dict_get rest key
  end.

(** ["female" if d % 2 == 0 else "male"]. *)
Definition by_parity (d : N) : pystr :=
  if (d mod 2 =? 0)%N then female else male.

(** [gen]: [int(gender_ch)] on the one-character string is the decimal
    value of the character, or [ValueError]. *)
Definition gen (U : UnicodeData) (id_str : pystr) : pystr :=
  if match id_str with [] => true | _ => false end
     || (length id_str <? 13)%nat
  then unknown
  else
    match nth_error id_str 12 with
    | None => unknown
    | Some gender_ch =>
        match cp_decimal U gender_ch with
        | Some d => by_parity d
        | None =>
            match dict_get arabic_indic_map gender_ch with
            | Some d => by_parity d
            | None => unknown
            end
        end
    end.

End Gender.

(* ================================================================== *)
(** ** id_card_data_extractor.py: the normalization of the fields *)

Module Extractor.
Import Scoring.

(** [hay.startswith(needle)]. *)
Fixpoint starts_with (needle hay : pystr) : bool :=
  match needle, hay with
  | [], _ => true
  | _ :: _, [] => false
  | a :: needle', b :: hay' => (a =? b)%N && starts_with needle' hay'
  end.

(** [needle in hay] on strings: [needle] occurs in [hay]. *)
Fixpoint contains (needle hay : pystr) : bool :=
  starts_with needle hay
  || match hay with
     | [] => false
     | _ :: hay' => contains needle hay'
     end.

(** The Arabic words of the three tables, as code points. *)
Definition muslim : pystr := [1605; 1587; 1604; 1605]%N.
Definition muslim_feminine : pystr := [1605; 1587; 1604; 1605; 1577]%N.
Definition christian : pystr := [1605; 1587; 1610; 1581; 1610]%N.
Definition christian_variant : pystr := [1605; 1587; 1610; 1581; 1609]%N.
Definition christian_feminine : pystr := [1605; 1587; 1610; 1581; 1610; 1577]%N.
Definition unspecified : pystr :=
  [1594; 1610; 1585; 32; 1605; 1581; 1583; 1583]%N.
Definition male_word : pystr := [1584; 1603; 1585]%N.
Definition female_word : pystr := [1571; 1606; 1579; 1609]%N.
Definition female_word_variant : pystr := [1575; 1606; 1579; 1609]%N.
Definition miss : pystr := [1571; 1606; 1587; 1577]%N.
Definition single : pystr := [1571; 1593; 1586; 1576]%N.
Definition married : pystr := [1605; 1578; 1586; 1608; 1580]%N.
Definition married_feminine : pystr := [1605; 1578; 1586; 1608; 1580; 1577]%N.

(** [for variant, normalized in mappings.items(): if variant in
    full_text: return normalized], in the insertion order of the
    dictionary. *)
Fixpoint first_variant (mappings : list (pystr * pystr)) (full_text : pystr)
  : option pystr :=
  match mappings with
  | [] => None
  | (variant, normalized) :: rest =>
      if contains variant full_text then Some normalized
      else first_variant rest full_text
  end.

Definition religion_mappings : list (pystr * pystr) :=
  [(muslim, muslim);
   (muslim_feminine, muslim_feminine);
   (christian, christian);
   (christian_variant, christian);
   (christian_feminine, christian_feminine)].

Definition _normalize_religion_text (full_text : pystr) : pystr :=
  match first_variant religion_mappings full_text with
  | Some normalized => normalized
  | None => unspecified
  end.

Definition _normalize_gender_text (full_text : pystr) : pystr :=
  if contains male_word full_text then male_word
  else if contains female_word full_text
          || contains female_word_variant full_text
       then female_word
       else unspecified.

Definition marital_status_mappings : list (pystr * pystr) :=
  [(miss, miss);
   (single, single);
   (married, married);
   (married_feminine, married_feminine)].

Definition _normalize_marital_status_text (full_text : pystr) : pystr :=
  match first_variant marital_status_mappings full_text with
  | Some normalized => normalized
  | None => unspecified
  end.

End Extractor.

(* ================================================================== *)
(** ** Facts about corner ordering *)

Module TransformFacts.
Import Transform.

Ltac in_cases H :=
  cbn in H;
  repeat match type of H with
         | _ \/ _ => destruct H as [H | H]
         | False => destruct H
         end.

(** *** The order of floating-point numbers *)

Lemma SFleb_not_nan a b :
  SFleb a b = true -> is_nan a = false /\ is_nan b = false.
Proof. destruct a, b; cbn; intros H; try discriminate; split; reflexivity. Qed.

Lemma SFltb_not_nan a b :
  SFltb a b = true -> is_nan a = false /\ is_nan b = false.
Proof. destruct a, b; cbn; intros H; try discriminate; split; reflexivity. Qed.

Lemma SFleb_rank a b :
  is_nan a = false -> is_nan b = false ->
  (SFleb a b = true <-> rank_le a b).
Proof.
  unfold rank_le.
  destruct a as [sa | sa | | sa ma ea], b as [sb | sb | | sb mb eb];
    cbn; intros Ha Hb; try discriminate;
    try destruct sa; try destruct sb; cbn;
    try (split; [intros _; lia | reflexivity]);
    try (split; [discriminate | lia]).
  - unfold SFleb, SFcompare.
    change (Pos.compare_cont Eq ma mb) with (Pos.compare ma mb).
    destruct (Z.compare_spec ea eb), (Pos.compare_spec ma mb); cbn;
      split; intros Hx; try reflexivity; try discriminate; lia.
  - unfold SFleb, SFcompare.
    change (Pos.compare_cont Eq ma mb) with (Pos.compare ma mb).
    destruct (Z.compare_spec ea eb), (Pos.compare_spec ma mb); cbn;
      split; intros Hx; try reflexivity; try discriminate; lia.
Qed.

Lemma SFltb_rank a b :
  is_nan a = false -> is_nan b = false ->
  (SFltb a b = true <-> ~ rank_le b a).
Proof.
  unfold rank_le.
  destruct a as [sa | sa | | sa ma ea], b as [sb | sb | | sb mb eb];
    cbn; intros Ha Hb; try discriminate;
    try destruct sa; try destruct sb; cbn;
    try (split; [intros _; lia | reflexivity]);
    try (split; [discriminate | lia]).
  - unfold SFltb, SFcompare.
    change (Pos.compare_cont Eq ma mb) with (Pos.compare ma mb).
    destruct (Z.compare_spec ea eb), (Pos.compare_spec ma mb); cbn;
      split; intros Hx; try reflexivity; try discriminate; lia.
  - unfold SFltb, SFcompare.
    change (Pos.compare_cont Eq ma mb) with (Pos.compare ma mb).
    destruct (Z.compare_spec ea eb), (Pos.compare_spec ma mb); cbn;
      split; intros Hx; try reflexivity; try discriminate; lia.
Qed.

Lemma rank_le_total a b : rank_le a b \/ rank_le b a.
Proof.
  unfold rank_le. destruct (rank a) as [[x y] z], (rank b) as [[x' y'] z']. lia.
Qed.

Lemma rank_le_trans a b c : rank_le a b -> rank_le b c -> rank_le a c.
Proof.
  unfold rank_le.
  destruct (rank a) as [[x y] z], (rank b) as [[x' y'] z'],
           (rank c) as [[x'' y''] z'']. lia.
Qed.

Lemma rank_le_refl a : rank_le a a.
Proof. unfold rank_le. destruct (rank a) as [[x y] z]. lia. Qed.

Lemma SFleb_total a b :
  is_nan a = false -> is_nan b = false -> SFleb a b = false -> SFleb b a = true.
Proof.
  intros Ha Hb H. apply (SFleb_rank b a Hb Ha).
  destruct (rank_le_total a b) as [Hab | Hba]; [|exact Hba].
  apply (SFleb_rank a b Ha Hb) in Hab. congruence.
Qed.

Lemma SFleb_trans a b c :
  SFleb a b = true -> SFleb b c = true -> SFleb a c = true.
Proof.
  intros Hab Hbc.
  destruct (SFleb_not_nan _ _ Hab) as [Ha Hb].
  destruct (SFleb_not_nan _ _ Hbc) as [_ Hc].
  apply (SFleb_rank a c Ha Hc).
  apply (rank_le_trans a b c); [now apply SFleb_rank | now apply SFleb_rank].
Qed.

Lemma SFleb_refl a : is_nan a = false -> SFleb a a = true.
Proof. intros Ha. apply (SFleb_rank a a Ha Ha), rank_le_refl. Qed.

(** A number that is at most another is not strictly above it. *)
Lemma SFleb_not_SFltb a b : SFleb a b = true -> SFltb b a = false.
Proof.
  intros Hab. destruct (SFleb_not_nan _ _ Hab) as [Ha Hb].
  destruct (SFltb b a) eqn:H; [|reflexivity].
  apply (SFltb_rank b a Hb Ha) in H. apply (SFleb_rank a b Ha Hb) in Hab.
  contradiction.
Qed.

(** *** The scan of [np.argmin] and [np.argmax] *)

Section Scan.

Variable le : spec_float -> spec_float -> bool.
Hypothesis le_total :
  forall a b, is_nan a = false -> is_nan b = false -> le a b = false -> le b a = true.
Hypothesis le_trans :
  forall a b c, le a b = true -> le b c = true -> le a c = true.
Hypothesis le_refl : forall a, is_nan a = false -> le a a = true.

Lemma first_extreme_from_spec l : forall mp ind i,
  is_nan mp = false ->
  let r := first_extreme_from le mp ind i l in
  (r = ind /\ forall x, In x l -> le mp x = true) \/
  (exists k v, r = (i + k)%nat /\ nth_error l k = Some v /\
     (is_nan v = true \/
      (le v mp = true /\ forall x, In x l -> le v x = true))).
Proof.
  induction l as [|x t IH]; intros mp ind i Hmp; cbn.
  - left. split; [reflexivity | intros x []].
  - destruct (le mp x) eqn:Hle; cbn [negb].
    + destruct (IH mp ind (S i) Hmp) as [[Hr Hall] | (k & v & Hr & Hn & Hv)].
      * left. split; [exact Hr|]. intros y [<- | Hy]; auto.
      * right. exists (S k), v. cbn in Hr. rewrite Hr. cbn.
        split; [lia|]. split; [exact Hn|].
        destruct Hv as [Hv | [Hv Hall]]; [now left | right].
        split; [exact Hv|]. intros y [<- | Hy]; [|auto].
        now apply (le_trans v mp x).
    + right. destruct (is_nan x) eqn:Hx.
      * exists 0%nat, x. cbn. split; [lia|]. split; [reflexivity | now left].
      * pose proof (le_total mp x Hmp Hx Hle) as Hxmp.
        destruct (IH x i (S i) Hx) as [[Hr Hall] | (k & v & Hr & Hn & Hv)].
        -- exists 0%nat, x. cbn in Hr. rewrite Hr. cbn.
           split; [lia|]. split; [reflexivity|]. right.
           split; [exact Hxmp|]. intros y [<- | Hy]; [now apply le_refl | auto].
        -- exists (S k), v. cbn in Hr. rewrite Hr. cbn.
           split; [lia|]. split; [exact Hn|].
           destruct Hv as [Hv | [Hv Hall]]; [now left | right].
           split; [now apply (le_trans v x mp)|].
           intros y [<- | Hy]; auto.
Qed.

(** The index returned holds a NaN, or an entry that no entry is before
    in the order of the scan. *)
Lemma first_extreme_spec l i :
  first_extreme le l = Some i ->
  exists v, nth_error l i = Some v /\
            (is_nan v = true \/ forall x, In x l -> le v x = true).
Proof.
  destruct l as [|a l]; cbn; [discriminate|].
  intros [= <-]. destruct (is_nan a) eqn:Ha.
  { exists a. split; [reflexivity | now left]. }
  destruct (first_extreme_from_spec l a 0%nat 1%nat Ha)
    as [[Hr Hall] | (k & v & Hr & Hn & Hv)]; cbn in *.
  - rewrite Hr. exists a. split; [reflexivity|]. right.
    intros x [<- | Hx]; [now apply le_refl | auto].
  - rewrite Hr. exists v. split; [exact Hn|].
    destruct Hv as [Hv | [Hv Hall]]; [now left | right].
    intros x [<- | Hx]; auto.
Qed.

End Scan.

Lemma argmin_spec l i :
  argmin l = Some i ->
  exists v, nth_error l i = Some v /\
            (is_nan v = true \/ forall x, In x l -> SFleb v x = true).
Proof.
  apply (first_extreme_spec argmin_le).
  - intros a b. apply SFleb_total.
  - intros a b c. apply SFleb_trans.
  - apply SFleb_refl.
Qed.

Lemma argmax_spec l i :
  argmax l = Some i ->
  exists v, nth_error l i = Some v /\
            (is_nan v = true \/ forall x, In x l -> SFleb x v = true).
Proof.
  apply (first_extreme_spec argmax_le).
  - intros a b Ha Hb. unfold argmax_le. now apply SFleb_total.
  - intros a b c Hab Hbc. unfold argmax_le in *. now apply (SFleb_trans c b a).
  - apply SFleb_refl.
Qed.

(** *** Row selection *)

Lemma row_at_argmin_spec key pts p :
  row_at_argmin key pts = Some p -> least key pts p.
Proof.
  unfold row_at_argmin, least.
  destruct (argmin (map key pts)) as [i|] eqn:Hi; [|discriminate].
  intros Hp. split; [now apply nth_error_In in Hp|].
  destruct (argmin_spec _ _ Hi) as (v & Hn & Hv).
  rewrite nth_error_map, Hp in Hn. cbn in Hn. injection Hn as <-.
  destruct Hv as [Hv | Hall]; [now left | right].
  intros q Hq. apply Hall, in_map, Hq.
Qed.

Lemma row_at_argmax_spec key pts p :
  row_at_argmax key pts = Some p -> greatest key pts p.
Proof.
  unfold row_at_argmax, greatest.
  destruct (argmax (map key pts)) as [i|] eqn:Hi; [|discriminate].
  intros Hp. split; [now apply nth_error_In in Hp|].
  destruct (argmax_spec _ _ Hi) as (v & Hn & Hv).
  rewrite nth_error_map, Hp in Hn. cbn in Hn. injection Hn as <-.
  destruct Hv as [Hv | Hall]; [now left | right].
  intros q Hq. apply Hall, in_map, Hq.
Qed.

Lemma row_at_argmin_total key pts :
  pts <> [] -> exists p, row_at_argmin key pts = Some p.
Proof.
  intros Hne. unfold row_at_argmin.
  destruct (argmin (map key pts)) as [i|] eqn:Hi.
  - destruct (argmin_spec _ _ Hi) as (v & Hn & _).
    rewrite nth_error_map in Hn.
    destruct (nth_error pts i) as [p|]; [now exists p | discriminate].
  - destruct pts; [congruence | discriminate].
Qed.

Lemma row_at_argmax_total key pts :
  pts <> [] -> exists p, row_at_argmax key pts = Some p.
Proof.
  intros Hne. unfold row_at_argmax.
  destruct (argmax (map key pts)) as [i|] eqn:Hi.
  - destruct (argmax_spec _ _ Hi) as (v & Hn & _).
    rewrite nth_error_map in Hn.
    destruct (nth_error pts i) as [p|]; [now exists p | discriminate].
  - destruct pts; [congruence | discriminate].
Qed.

(** On a non-empty array the four selections succeed, and the result is
    made of their [float32] copies in the order top-left, top-right,
    bottom-right, bottom-left. *)
Lemma sort_quadrilateral_corners_rows prec emax pts :
  pts <> [] ->
  exists tl tr br bl,
    sort_quadrilateral_corners prec emax pts
      = Some (map row_to_float32 [tl; tr; br; bl]) /\
    row_at_argmin (coordinate_sum prec emax) pts = Some tl /\
    row_at_argmax (coordinate_sum prec emax) pts = Some br /\
    row_at_argmin (coordinate_difference prec emax) pts = Some tr /\
    row_at_argmax (coordinate_difference prec emax) pts = Some bl.
Proof.
  intros Hne. unfold sort_quadrilateral_corners.
  destruct (row_at_argmin_total (coordinate_sum prec emax) pts Hne) as [tl ->].
  destruct (row_at_argmax_total (coordinate_sum prec emax) pts Hne) as [br ->].
  destruct (row_at_argmin_total (coordinate_difference prec emax) pts Hne) as [tr ->].
  destruct (row_at_argmax_total (coordinate_difference prec emax) pts Hne) as [bl ->].
  exists tl, tr, br, bl. repeat split.
Qed.

Lemma four_rows_nonempty (pts : list row) : length pts = 4%nat -> pts <> [].
Proof. destruct pts; [discriminate | congruence]. Qed.

(** *** Rows without equal keys *)

Lemma spec_float_eq_dec (a b : spec_float) : {a = b} + {a <> b}.
Proof.
  decide equality; try apply Bool.bool_dec; try apply Pos.eq_dec;
    apply Z.eq_dec.
Qed.

Lemma row_eq_dec (p q : row) : {p = q} + {p <> q}.
Proof. decide equality; apply spec_float_eq_dec. Qed.

Lemma strictly_ordered_not_both a b :
  strictly_ordered a b = true ->
  is_nan a = false /\ is_nan b = false /\
  (SFleb a b = true -> SFleb b a = true -> False).
Proof.
  unfold strictly_ordered. intros H.
  apply orb_true_iff in H.
  assert (Hnan : is_nan a = false /\ is_nan b = false).
  { destruct H as [H | H]; apply SFltb_not_nan in H; tauto. }
  split; [tauto|]. split; [tauto|].
  intros Hab Hba.
  apply SFleb_not_SFltb in Hab, Hba.
  destruct H; congruence.
Qed.

(** When different rows have different keys, one row at most has the
    least key, and one row at most the greatest. *)
Lemma least_unique key pts p q :
  (forall a b, In a pts -> In b pts -> a <> b ->
     strictly_ordered (key a) (key b) = true) ->
  least key pts p -> least key pts q -> p = q.
Proof.
  intros Hties [Hp Hleast] [Hq Hleast'].
  destruct (row_eq_dec p q) as [Heq | Hne]; [exact Heq | exfalso].
  destruct (strictly_ordered_not_both _ _ (Hties p q Hp Hq Hne))
    as (Hnp & Hnq & Hno).
  destruct Hleast as [Hnan | Hall]; [congruence|].
  destruct Hleast' as [Hnan | Hall']; [congruence|].
  apply Hno; auto.
Qed.

Lemma greatest_unique key pts p q :
  (forall a b, In a pts -> In b pts -> a <> b ->
     strictly_ordered (key a) (key b) = true) ->
  greatest key pts p -> greatest key pts q -> p = q.
Proof.
  intros Hties [Hp Hgreatest] [Hq Hgreatest'].
  destruct (row_eq_dec p q) as [Heq | Hne]; [exact Heq | exfalso].
  destruct (strictly_ordered_not_both _ _ (Hties p q Hp Hq Hne))
    as (Hnp & Hnq & Hno).
  destruct Hgreatest as [Hnan | Hall]; [congruence|].
  destruct Hgreatest' as [Hnan | Hall']; [congruence|].
  apply Hno; auto.
Qed.

Lemma least_permutation key pts pts' p :
  Permutation pts pts' -> least key pts' p -> least key pts p.
Proof.
  intros Hperm [Hp Hleast]. split.
  - apply (Permutation_in _ (Permutation_sym Hperm) Hp).
  - destruct Hleast as [Hnan | Hall]; [now left | right].
    intros q Hq. apply Hall, (Permutation_in _ Hperm Hq).
Qed.

Lemma greatest_permutation key pts pts' p :
  Permutation pts pts' -> greatest key pts' p -> greatest key pts p.
Proof.
  intros Hperm [Hp Hgreatest]. split.
  - apply (Permutation_in _ (Permutation_sym Hperm) Hp).
  - destruct Hgreatest as [Hnan | Hall]; [now left | right].
    intros q Hq. apply Hall, (Permutation_in _ Hperm Hq).
Qed.

(** *** The ordering computed by [sort_quadrilateral_corners] *)




(** C9, as stated: the corners [(100,200)], [(300,50)], [(350,250)],
    [(80,300)] found on the working image of a photograph 1080 pixels
    high are rescaled by [2.16]; the bottom-left row of the input is
    [(172.8, 648.0)], the row returned at position 3 is
    [(172.8000030517578, 648.0)], which equals no row of the input. *)
Lemma sort_quadrilateral_corners_changes_rows :
  let pts := scale_corners (scale_ratio 1080)
               [(100, 200); (300, 50); (350, 250); (80, 300)] in
  exists out p,
    sort_quadrilateral_corners 53 1024 pts = Some out /\
    nth_error pts 3
      = Some (S754_finite false 6079859496950170 (-45),
              S754_finite false 5699868278390784 (-43)) /\
    nth_error out 3 = Some p /\
    row_to_float64 p
      = (S754_finite false 6079859604324352 (-45),
         S754_finite false 5699868278390784 (-43)) /\
    ~ (exists q, In q pts /\ same_numbers (row_to_float64 p) q = true).
Proof.
  cbv zeta. eexists. eexists.
  split; [vm_compute; reflexivity|].
  split; [vm_compute; reflexivity|].
  split; [reflexivity|].
  split; [vm_compute; reflexivity|].
  intros (q & Hq & Hsame).
  vm_compute in Hq. in_cases Hq; subst q; vm_compute in Hsame; discriminate.
Qed.

(** C9, amended: on every floating-point array of four rows, degenerate
    or not, the ordering returns four rows, and each of them is the
    [float32] copy of a row of the input. *)
Theorem sort_quadrilateral_corners_float32_rows (prec emax : Z) (pts : list row) :
  length pts = 4%nat ->
  exists out,
    sort_quadrilateral_corners prec emax pts = Some out /\
    length out = 4%nat /\
    forall p, In p out -> exists q, In q pts /\ p = row_to_float32 q.
Proof.
  intros Hlen.
  destruct (sort_quadrilateral_corners_rows prec emax pts
              (four_rows_nonempty pts Hlen))
    as (tl & tr & br & bl & Hs & Htl & Hbr & Htr & Hbl).
  apply row_at_argmin_spec in Htl, Htr. apply row_at_argmax_spec in Hbr, Hbl.
  destruct Htl as [Htl _], Htr as [Htr _], Hbr as [Hbr _], Hbl as [Hbl _].
  exists (map row_to_float32 [tl; tr; br; bl]).
  split; [exact Hs|]. split; [reflexivity|].
  intros p Hp. in_cases Hp; subst p; eauto.
Qed.

(** Four times the same row, three rows on a line, and a row of NaN. *)
Lemma sort_quadrilateral_corners_float32_rows_witness :
  (length (rows_of_ints [(3, 3); (3, 3); (3, 3); (3, 3)]) = 4%nat /\
   exists out,
     sort_quadrilateral_corners 53 1024
       (rows_of_ints [(3, 3); (3, 3); (3, 3); (3, 3)]) = Some out /\
     length out = 4%nat /\
     forall p, In p out ->
       exists q, In q (rows_of_ints [(3, 3); (3, 3); (3, 3); (3, 3)]) /\
                 p = row_to_float32 q) /\
  (length ((S754_nan, S754_nan) :: rows_of_ints [(0, 0); (1, 1); (2, 2)])
     = 4%nat /\
   exists out,
     sort_quadrilateral_corners 53 1024
       ((S754_nan, S754_nan) :: rows_of_ints [(0, 0); (1, 1); (2, 2)])
       = Some out /\
     length out = 4%nat /\
     forall p, In p out ->
       exists q,
         In q ((S754_nan, S754_nan) :: rows_of_ints [(0, 0); (1, 1); (2, 2)]) /\
         p = row_to_float32 q).
Proof.
  split.
  - split; [reflexivity|].
    apply (sort_quadrilateral_corners_float32_rows 53 1024
             (rows_of_ints [(3, 3); (3, 3); (3, 3); (3, 3)])).
    reflexivity.
  - split; [reflexivity|].
    apply (sort_quadrilateral_corners_float32_rows 53 1024
             ((S754_nan, S754_nan) :: rows_of_ints [(0, 0); (1, 1); (2, 2)])).
    reflexivity.
Defined.

(** C8: the square standing on a corner, [(1,2)], [(2,1)], [(1,0)],
    [(0,1)], is convex and its four corners are distinct.  Given as a
    [float64] array, it is returned as [(1,0)], [(2,1)], [(1,2)], [(1,2)]:
    the corner [(1,2)] stands for the bottom-right and for the bottom-left
    corner, the corner [(0,1)] is lost.  Ordering this result again gives
    [(1,0)], [(1,0)], [(2,1)], [(1,2)], another sequence. *)
Lemma sort_quadrilateral_corners_diamond :
  let square := [(1, 2); (2, 1); (1, 0); (0, 1)] in
  convex_nondegenerate square = true /\
  NoDup square /\
  exists out out',
    sort_quadrilateral_corners 53 1024 (rows_of_ints square) = Some out /\
    map row_to_float64 out = rows_of_ints [(1, 0); (2, 1); (1, 2); (1, 2)] /\
    sort_quadrilateral_corners 24 128 out = Some out' /\
    map row_to_float64 out' = rows_of_ints [(1, 0); (1, 0); (2, 1); (1, 2)] /\
    out' <> out.
Proof.
  cbv zeta. split; [reflexivity|]. split.
  { repeat constructor; cbn; intros H; in_cases H; discriminate. }
  eexists. eexists.
  split; [vm_compute; reflexivity|].
  split; [vm_compute; reflexivity|].
  split; [vm_compute; reflexivity|].
  split; [vm_compute; reflexivity|].
  discriminate.
Qed.

End TransformFacts.

(* ================================================================== *)
(** ** The corner ordering and the order of the rows *)

Module OrderingFacts.
Import Transform TransformFacts.

(** X2: when no two different rows have equal computed sums or equal
    computed differences, the result does not depend on the order in
    which the rows are given. *)
Theorem sort_quadrilateral_corners_input_order
    (prec emax : Z) (pts pts' : list row) :
  Permutation pts pts' ->
  no_key_ties prec emax pts ->
  sort_quadrilateral_corners prec emax pts'
    = sort_quadrilateral_corners prec emax pts.
Proof.
  intros Hperm Hties.
  destruct pts as [|p0 pts0].
  { apply Permutation_nil in Hperm. now subst pts'. }
  set (pts := p0 :: pts0) in *.
  assert (Hne : pts <> []) by discriminate.
  assert (Hne' : pts' <> []).
  { intros ->. apply Permutation_sym, Permutation_nil in Hperm.
    discriminate. }
  assert (Hsum : forall a b, In a pts -> In b pts -> a <> b ->
            strictly_ordered (coordinate_sum prec emax a)
                             (coordinate_sum prec emax b) = true)
    by (intros a b Ha Hb Hab; apply (Hties a b Ha Hb Hab)).
  assert (Hdiff : forall a b, In a pts -> In b pts -> a <> b ->
            strictly_ordered (coordinate_difference prec emax a)
                             (coordinate_difference prec emax b) = true)
    by (intros a b Ha Hb Hab; apply (Hties a b Ha Hb Hab)).
  destruct (sort_quadrilateral_corners_rows prec emax pts Hne)
    as (tl & tr & br & bl & -> & Htl & Hbr & Htr & Hbl).
  destruct (sort_quadrilateral_corners_rows prec emax pts' Hne')
    as (tl' & tr' & br' & bl' & -> & Htl' & Hbr' & Htr' & Hbl').
  apply row_at_argmin_spec in Htl, Htr, Htl', Htr'.
  apply row_at_argmax_spec in Hbr, Hbl, Hbr', Hbl'.
  apply (least_permutation _ _ _ _ Hperm) in Htl', Htr'.
  apply (greatest_permutation _ _ _ _ Hperm) in Hbr', Hbl'.
  rewrite (least_unique _ _ _ _ Hsum Htl' Htl).
  rewrite (least_unique _ _ _ _ Hdiff Htr' Htr).
  rewrite (greatest_unique _ _ _ _ Hsum Hbr' Hbr).
  rewrite (greatest_unique _ _ _ _ Hdiff Hbl' Hbl).
  reflexivity.
Qed.

(** The rescaled docstring example, given backwards. *)
Lemma sort_quadrilateral_corners_input_order_witness :
  let pts := scale_corners (scale_ratio 1080)
               [(100, 200); (300, 50); (350, 250); (80, 300)] in
  sort_quadrilateral_corners 53 1024 (rev pts)
    = sort_quadrilateral_corners 53 1024 pts.
Proof.
  cbv zeta.
  apply (sort_quadrilateral_corners_input_order 53 1024
           (scale_corners (scale_ratio 1080)
              [(100, 200); (300, 50); (350, 250); (80, 300)])).
  - apply Permutation_rev.
  - intros p q Hp Hq Hne.
    vm_compute in Hp, Hq.
    in_cases Hp; in_cases Hq; subst p q;
      try (exfalso; apply Hne; reflexivity);
      split; vm_compute; reflexivity.
Defined.

(** The keys are the computed ones.  For a photograph 350 pixels high
    the corners [(0,50)] and [(5,45)] of a convex quadrilateral are
    rescaled to [(0.0, 35.0)] and [(3.5, 31.499999999999996)]: the sums
    are equal after rounding, and the top-left corner returned depends on
    which of the two rows comes first. *)
Example input_order_matters_with_rounded_ties :
  let corners := [(0, 50); (5, 45); (60, 60); (70, 0)] in
  let pts := scale_corners (scale_ratio 350) corners in
  convex_nondegenerate corners = true /\
  (exists p q,
     nth_error pts 0 = Some p /\ nth_error pts 1 = Some q /\
     same_numbers p q = false /\
     SFeqb (coordinate_sum 53 1024 p) (coordinate_sum 53 1024 q) = true) /\
  sort_quadrilateral_corners 53 1024 (rev pts)
    <> sort_quadrilateral_corners 53 1024 pts.
Proof.
  cbv zeta. split; [reflexivity|]. split.
  - eexists. eexists. split; [vm_compute; reflexivity|].
    split; [vm_compute; reflexivity|]. split; vm_compute; reflexivity.
  - vm_compute. discriminate.
Qed.

End OrderingFacts.

(* ================================================================== *)
(** ** Facts about the confidence score *)

Module ScoringFacts.
Import Scoring.

(** *** Strings *)

Lemma forallb_firstn {A} (P : A -> bool) n l :
  forallb P l = true -> forallb P (firstn n l) = true.
Proof.
  revert n. induction l as [|a l IH]; intros [|n]; cbn; auto.
  intros H. apply andb_true_iff in H as [Ha Hl]. now rewrite Ha, IH.
Qed.

Lemma forallb_skipn {A} (P : A -> bool) n l :
  forallb P l = true -> forallb P (skipn n l) = true.
Proof.
  revert n. induction l as [|a l IH]; intros [|n]; cbn; auto.
  intros H. apply andb_true_iff in H as [Ha Hl]. now apply IH.
Qed.

Lemma forallb_slice (P : codepoint -> bool) i j s :
  forallb P s = true -> forallb P (slice i j s) = true.
Proof. intros H. unfold slice. now apply forallb_firstn, forallb_skipn. Qed.

Lemma length_slice i j s :
  (i <= j)%nat -> (j <= length s)%nat -> length (slice i j s) = (j - i)%nat.
Proof.
  intros Hij Hj. unfold slice. rewrite length_firstn, length_skipn. lia.
Qed.

(** A string with a character that is not a digit is not a digit string. *)
Lemma str_isdigit_false U s c :
  In c s -> cp_isdigit U c = false -> str_isdigit U s = false.
Proof.
  intros Hin Hc. unfold str_isdigit. destruct s as [|a s]; [reflexivity|].
  apply not_true_is_false. intros H.
  rewrite forallb_forall in H. specialize (H c Hin). congruence.
Qed.

(** On ASCII digits every database agrees with the ASCII block. *)
Lemma ascii_digit_isdigit U c :
  is_ascii_digit c = true -> cp_isdigit U c = true.
Proof.
  intros H. unfold is_ascii_digit in H.
  rewrite ascii_isdigit; [exact H|].
  apply andb_true_iff in H as [_ H]. apply N.leb_le in H. lia.
Qed.

Lemma ascii_digit_decimal U c :
  is_ascii_digit c = true -> cp_decimal U c = Some (c - 48)%N.
Proof.
  intros H. unfold is_ascii_digit in H.
  rewrite ascii_decimal.
  - now rewrite H.
  - apply andb_true_iff in H as [_ H]. apply N.leb_le in H. lia.
Qed.

Lemma str_isdigit_ascii_digits U s :
  s <> [] -> forallb is_ascii_digit s = true -> str_isdigit U s = true.
Proof.
  intros Hne H. unfold str_isdigit. destruct s as [|a s]; [congruence|].
  apply forallb_forall. intros c Hc.
  apply ascii_digit_isdigit. rewrite forallb_forall in H. now apply H.
Qed.

Lemma py_int_fold_ascii_digits U s : forall acc,
  forallb is_ascii_digit s = true ->
  exists n,
    fold_left
      (fun acc c =>
         match acc, cp_decimal U c with
         | Some a, Some d => Some (10 * a + d)%N
         | _, _ => None
         end) s (Some acc) = Some n.
Proof.
  induction s as [|c s IH]; intros acc H; cbn.
  - now exists acc.
  - cbn in H. apply andb_true_iff in H as [Hc Hs].
    rewrite (ascii_digit_decimal U c Hc). now apply IH.
Qed.

(** [int()] accepts every non-empty string of ASCII digits. *)
Lemma py_int_ascii_digits U s :
  s <> [] -> forallb is_ascii_digit s = true -> exists n, py_int U s = Some n.
Proof.
  intros Hne H. unfold py_int. destruct s as [|a s]; [congruence|].
  now apply py_int_fold_ascii_digits.
Qed.

Lemma nonempty_of_length {A} (l : list A) n :
  length l = S n -> l <> [].
Proof. destruct l; [discriminate | congruence]. Qed.

(** *** Floats *)

(** The constants are the binary64 values of the decimal literals. *)
Example float_literals_nearest :
  nearest_binary64 10 100 float_0_10 = true /\
  nearest_binary64 20 100 float_0_20 = true /\
  nearest_binary64 35 100 float_0_35 = true /\
  nearest_binary64 100 100 float_1_0 = true /\
  nearest_binary64 80 100 float_0_80 = true /\
  nearest_binary64 79 100 float_0_79 = true.
Proof. repeat split. Qed.

(** In binary64, 0.10 + 0.35 + 0.35 is not 0.80 but the number before it,
    and adding 0.20 to it gives 1.0. *)
Example score_of_checks_values :
  score_of_checks true true true false = SFpred 53 1024 float_0_80 /\
  score_of_checks true true true true = float_1_0 /\
  score_of_checks true false false false = float_0_10 /\
  score_of_checks false false false false = float_0_0.
Proof. repeat split. Qed.

(** *** The score as a sum over the four checks *)

Lemma score_by_checks U id_number :
  calculate_egyptian_id_confidence_score U id_number =
  if match id_number with [] => true | _ => false end
     || negb (str_isdigit U id_number)
  then float_0_0
  else score_of_checks (century_check id_number) (month_check U id_number)
         (day_check U id_number) (governorate_check id_number).
Proof.
  unfold calculate_egyptian_id_confidence_score, score_of_checks,
    century_check, month_check, day_check, date_parses, governorate_check,
    add_if.
  destruct (match id_number with [] => true | _ => false end
            || negb (str_isdigit U id_number)); [reflexivity|].
  cbv zeta.
  destruct ((1 <=? length id_number)%nat
            && str_in (slice 0 1 id_number) [py "2"; py "3"]);
    destruct (7 <=? length id_number)%nat; cbn [andb];
    destruct (str_isdigit U (slice 3 5 id_number)); cbn [andb];
    destruct (str_isdigit U (slice 5 7 id_number)); cbn [andb];
    destruct (py_int U (slice 3 5 id_number)) as [month|]; cbn [andb];
    destruct (py_int U (slice 5 7 id_number)) as [day|]; cbn [andb];
    try destruct ((1 <=? month) && (month <=? 12))%N;
    try destruct ((1 <=? day) && (day <=? 31))%N;
    destruct ((9 <=? length id_number)%nat
              && str_in (slice 7 9 id_number) valid_governorate_codes) eqn:Hg;
    try (apply andb_true_iff in Hg as [Hg1 Hg2]; rewrite Hg1, Hg2);
    try (apply andb_false_iff in Hg as [Hg | Hg]; rewrite Hg;
         try destruct (9 <=? length id_number)%nat);
    reflexivity.
Qed.

Lemma score_of_checks_range century month day governorate :
  SFleb float_0_0 (score_of_checks century month day governorate) = true /\
  SFleb (score_of_checks century month day governorate) float_1_0 = true.
Proof.
  destruct century, month, day, governorate; split; vm_compute; reflexivity.
Qed.

(** *** ASCII identifiers *)

(** On strings of ASCII digits the result does not depend on the rest of
    the Unicode database. *)
Lemma str_isdigit_ascii_agree U V s :
  forallb is_ascii_digit s = true -> str_isdigit U s = str_isdigit V s.
Proof.
  intros H. destruct s as [|a s]; [reflexivity|].
  rewrite !str_isdigit_ascii_digits; auto; discriminate.
Qed.

Lemma py_int_ascii_agree U V s :
  forallb is_ascii_digit s = true -> py_int U s = py_int V s.
Proof.
  intros H. unfold py_int. destruct s as [|a s]; [reflexivity|].
  generalize (Some 0%N) as acc. revert H.
  generalize (a :: s) as l. clear a s.
  induction l as [|c l IH]; intros H acc; cbn; [reflexivity|].
  cbn in H. apply andb_true_iff in H as [Hc Hl].
  rewrite (ascii_digit_decimal U c Hc), (ascii_digit_decimal V c Hc).
  now apply IH.
Qed.

Lemma score_ascii_agree U V id_number :
  forallb is_ascii_digit id_number = true ->
  calculate_egyptian_id_confidence_score U id_number =
  calculate_egyptian_id_confidence_score V id_number.
Proof.
  intros H. unfold calculate_egyptian_id_confidence_score.
  rewrite (str_isdigit_ascii_agree U V id_number H).
  rewrite (str_isdigit_ascii_agree U V (slice 3 5 id_number)),
          (str_isdigit_ascii_agree U V (slice 5 7 id_number)),
          (py_int_ascii_agree U V (slice 3 5 id_number)),
          (py_int_ascii_agree U V (slice 5 7 id_number));
    try reflexivity; now apply forallb_slice.
Qed.

(** C3, as stated: the five ASCII digits 29912 contain the month 12 at
    positions 3 and 4, yet the score is 0.10, which is the score of no
    identifier passing the month check. *)
Lemma month_contribution_missing_below_seven_digits :
  let id_number := py "29912" in
  forallb is_ascii_digit id_number = true /\
  (5 <= length id_number)%nat /\
  py_int basic_unicode (slice 3 5 id_number) = Some 12%N /\
  calculate_egyptian_id_confidence_score basic_unicode id_number = float_0_10 /\
  ~ includes_month_contribution
      (calculate_egyptian_id_confidence_score basic_unicode id_number).
Proof.
  cbv zeta. split; [reflexivity|]. split; [cbn; lia|].
  split; [reflexivity|]. split; [reflexivity|].
  intros (c & d & g & H).
  destruct c, d, g; vm_compute in H; discriminate.
Qed.

(** C3, amended: for every string of ASCII digits of length at least 7
    (long enough to contain both the month and the day), if the month
    substring at positions 3 and 4 parses as an integer in [1, 12] then the
    score includes the month's 0.35. *)
Theorem month_contribution_from_seven_digits
    (U : UnicodeData) (id_number : pystr) (month : N) :
  forallb is_ascii_digit id_number = true ->
  (7 <= length id_number)%nat ->
  py_int U (slice 3 5 id_number) = Some month ->
  (1 <= month <= 12)%N ->
  calculate_egyptian_id_confidence_score U id_number =
    score_of_checks (century_check id_number) true
      (day_check U id_number) (governorate_check id_number) /\
  includes_month_contribution
    (calculate_egyptian_id_confidence_score U id_number).
Proof.
  intros Hdigits Hlen Hmonth Hrange.
  assert (Hscore : calculate_egyptian_id_confidence_score U id_number =
                   score_of_checks (century_check id_number) true
                     (day_check U id_number) (governorate_check id_number)).
  { rewrite score_by_checks.
    assert (Hne : id_number <> []) by (destruct id_number; [cbn in Hlen; lia | discriminate]).
    rewrite (str_isdigit_ascii_digits U id_number Hne Hdigits).
    destruct id_number as [|c0 rest]; [congruence|]. cbn [orb negb].
    set (id_number := c0 :: rest) in *.
    assert (Hm : month_check U id_number = true).
    { unfold month_check, date_parses.
      assert (Hl35 : length (slice 3 5 id_number) = 2%nat) by (apply length_slice; lia).
      assert (Hl57 : length (slice 5 7 id_number) = 2%nat) by (apply length_slice; lia).
      apply nonempty_of_length in Hl35, Hl57.
      rewrite (proj2 (Nat.leb_le _ _) Hlen).
      rewrite (str_isdigit_ascii_digits U _ Hl35 (forallb_slice _ 3 5 _ Hdigits)).
      rewrite (str_isdigit_ascii_digits U _ Hl57 (forallb_slice _ 5 7 _ Hdigits)).
      destruct (py_int_ascii_digits U _ Hl57 (forallb_slice _ 5 7 _ Hdigits)) as [day ->].
      rewrite Hmonth. cbn [andb].
      apply andb_true_iff. split; [apply N.leb_le | apply N.leb_le]; lia. }
    now rewrite Hm. }
  split; [exact Hscore|].
  rewrite Hscore. now eexists _, _, _.
Qed.

Lemma month_contribution_from_seven_digits_witness :
  calculate_egyptian_id_confidence_score basic_unicode (py "29901234567") =
    score_of_checks (century_check (py "29901234567")) true
      (day_check basic_unicode (py "29901234567"))
      (governorate_check (py "29901234567")) /\
  includes_month_contribution
    (calculate_egyptian_id_confidence_score basic_unicode (py "29901234567")).
Proof.
  apply (month_contribution_from_seven_digits
           basic_unicode (py "29901234567") 1%N).
  - reflexivity.
  - cbn; lia.
  - reflexivity.
  - lia.
Defined.

(** C6, as stated: the score of 29901234567 is the binary64 sum
    (0.10 + 0.35) + 0.35, which is below the binary64 number 0.80. *)
Lemma confidence_score_below_0_80 :
  calculate_egyptian_id_confidence_score basic_unicode (py "29901234567")
  = S754_finite false 7205759403792793 (-53) /\
  SFleb float_0_80
    (calculate_egyptian_id_confidence_score basic_unicode (py "29901234567"))
  = false.
Proof. split; vm_compute; reflexivity. Qed.

(** C6, amended: for every input string the score lies in [0.0, 1.0]; for
    the empty string and for every string containing a character that is
    not a digit it is exactly 0.0; and for 29901234567 it is the binary64
    number just below 0.80, which is at least 0.79. *)
Theorem confidence_score_range (U : UnicodeData) (id_number : pystr) :
  (SFleb float_0_0 (calculate_egyptian_id_confidence_score U id_number) = true /\
   SFleb (calculate_egyptian_id_confidence_score U id_number) float_1_0 = true) /\
  (id_number = [] \/ (exists c, In c id_number /\ cp_isdigit U c = false) ->
   calculate_egyptian_id_confidence_score U id_number = float_0_0) /\
  (calculate_egyptian_id_confidence_score U (py "29901234567")
     = SFpred 53 1024 float_0_80 /\
   SFleb float_0_79
     (calculate_egyptian_id_confidence_score U (py "29901234567")) = true).
Proof.
  split; [|split].
  - rewrite score_by_checks.
    destruct (match id_number with [] => true | _ => false end
              || negb (str_isdigit U id_number)).
    + split; reflexivity.
    + apply score_of_checks_range.
  - intros [-> | (c & Hin & Hc)]; [reflexivity|].
    unfold calculate_egyptian_id_confidence_score.
    rewrite (str_isdigit_false U id_number c Hin Hc).
    now rewrite orb_true_r.
  - rewrite (score_ascii_agree U basic_unicode) by reflexivity.
    split; vm_compute; reflexivity.
Qed.

Lemma confidence_score_range_witness :
  calculate_egyptian_id_confidence_score basic_unicode [] = float_0_0 /\
  calculate_egyptian_id_confidence_score basic_unicode (py "2990123456x")
  = float_0_0.
Proof.
  split.
  - apply (proj1 (proj2 (confidence_score_range basic_unicode []))).
    left. reflexivity.
  - apply (proj1 (proj2 (confidence_score_range basic_unicode (py "2990123456x")))).
    right. exists 120%N. split; [cbn; tauto | reflexivity].
Defined.

End ScoringFacts.

(* ================================================================== *)
(** ** Facts about validation, selection and scan *)

Module ScannerFacts.
Import Transform Scoring Scanner.

Section PipelineFacts.

Context {image contour lib_error : Type}.
Variable ext : Externals image contour lib_error.

(** *** One call, one step *)

Lemma apply_perspective_correction_run full corners (t : list (event image lib_error)) :
  apply_perspective_correction ext full corners t =
  (match warp ext full corners with
   | inl e => inl (LibraryError e)
   | inr corrected => inr corrected
   end,
   t ++ [PerspectiveCorrection full corners]).
Proof.
  unfold apply_perspective_correction, bind, emit, raise, ret.
  destruct (warp ext full corners); reflexivity.
Qed.

Lemma validate_id_number_region_run card (t : list (event image lib_error)) :
  validate_id_number_region ext card t =
  (match recognized_text ext (id_number_region ext card) with
   | inl e => inl (LibraryError e)
   | inr text =>
       inr ((12 <=? length (extract_digits ext text))%nat,
            extract_digits ext text)
   end,
   t ++ ocr_events ext (id_number_region ext card)).
Proof.
  unfold validate_id_number_region, call_image_to_string, recognized_text,
    ocr_events, try_except, bind, emit, raise, ret.
  destruct (image_to_string ext (id_number_region ext card) AraNumber);
    [destruct (image_to_string ext (id_number_region ext card) AraEngWhitelist)|];
    cbn; rewrite <- ?app_assoc; reflexivity.
Qed.

(** The guarded body of an iteration never raises; it tells whether the
    candidate passes the gate and leaves the events of the attempt. *)
Lemma guarded_attempt_run (c : contour) full (t : list (event image lib_error)) :
  is_quadrilateral ext c = true ->
  try_except (try_candidate ext (approxPolyDP ext c) full) warn_and_continue t =
  (inr (passes_gate ext full c),
   t ++ attempt_events ext full (approxPolyDP ext c)).
Proof.
  intros Hq. unfold passes_gate. unfold is_quadrilateral in Hq. rewrite Hq.
  cbn [andb].
  unfold try_except, try_candidate, extract_and_transform_card, attempt_events.
  unfold bind at 1 2.
  rewrite apply_perspective_correction_run.
  destruct (warp ext full (approxPolyDP ext c)) as [e | corrected].
  - cbn. unfold bind, emit, ret. cbn. now rewrite <- app_assoc.
  - cbn [ret snd]. unfold bind at 1.
    rewrite validate_id_number_region_run.
    destruct (recognized_text ext
                (id_number_region ext (resize_to_card ext corrected)))
      as [e | text].
    + unfold bind, emit, ret. cbn. now rewrite <- !app_assoc.
    + unfold bind, emit, ret. cbn. now rewrite <- !app_assoc.
Qed.

Lemma candidate_loop_cons c rest full fallback (t : list (event image lib_error)) :
  candidate_loop ext (c :: rest) full fallback t =
  if is_quadrilateral ext c then
    if passes_gate ext full c then
      (inr (Some (approxPolyDP ext c), held_or fallback (approxPolyDP ext c)),
       t ++ attempt_events ext full (approxPolyDP ext c))
    else
      candidate_loop ext rest full (held_or fallback (approxPolyDP ext c))
        (t ++ attempt_events ext full (approxPolyDP ext c))
  else candidate_loop ext rest full fallback t.
Proof.
  cbn [candidate_loop].
  destruct (is_quadrilateral ext c) eqn:Hq; unfold is_quadrilateral in Hq;
    rewrite Hq; [|reflexivity].
  unfold bind at 1.
  rewrite (guarded_attempt_run c full t Hq).
  destruct (passes_gate ext full c); reflexivity.
Qed.

(** *** The whole loop *)

Lemma passes_gate_is_quadrilateral full c :
  passes_gate ext full c = true -> is_quadrilateral ext c = true.
Proof.
  unfold passes_gate, is_quadrilateral. intros H.
  now apply andb_true_iff in H as [H _].
Qed.

Lemma fallback_after_cons_quadrilateral c rest fallback :
  is_quadrilateral ext c = true ->
  fallback_after ext (c :: rest) fallback = held_or fallback (approxPolyDP ext c).
Proof.
  intros Hq. unfold fallback_after, held_or. cbn [find]. rewrite Hq.
  now destruct fallback.
Qed.

Lemma fallback_after_cons_other c rest fallback :
  is_quadrilateral ext c = false ->
  fallback_after ext (c :: rest) fallback = fallback_after ext rest fallback.
Proof.
  intros Hq. unfold fallback_after. cbn [find]. now rewrite Hq.
Qed.

Lemma fallback_after_held fallback q rest :
  fallback_after ext rest (held_or fallback q) = held_or fallback q.
Proof. now destruct fallback. Qed.

(** The loop never raises.  It returns the first candidate that passes the
    gate, if any, and leaves the events of the candidates up to that one. *)
Lemma candidate_loop_run contours full : forall fallback (t : list (event image lib_error)),
  candidate_loop ext contours full fallback t =
  (inr (option_map (approxPolyDP ext) (find (passes_gate ext full) contours),
        fallback_after ext (evaluated ext full contours) fallback),
   t ++ loop_events ext full (evaluated ext full contours)).
Proof.
  induction contours as [|c rest IH]; intros fallback t.
  - cbn. unfold ret, fallback_after. rewrite app_nil_r. now destruct fallback.
  - rewrite candidate_loop_cons. cbn [find evaluated].
    destruct (is_quadrilateral ext c) eqn:Hq.
    + destruct (passes_gate ext full c) eqn:Hp.
      * cbn [option_map]. rewrite fallback_after_cons_quadrilateral by exact Hq.
        unfold loop_events. cbn [flat_map]. rewrite Hq, app_nil_r. reflexivity.
      * rewrite IH. rewrite fallback_after_held.
        rewrite fallback_after_cons_quadrilateral by exact Hq.
        unfold loop_events. cbn [flat_map]. rewrite Hq, <- app_assoc. reflexivity.
    + destruct (passes_gate ext full c) eqn:Hp.
      * apply passes_gate_is_quadrilateral in Hp. congruence.
      * rewrite IH. rewrite fallback_after_cons_other by exact Hq.
        unfold loop_events. cbn [flat_map]. rewrite Hq. reflexivity.
Qed.

Lemma evaluated_first_pass full pre c post :
  (forall c', In c' pre -> passes_gate ext full c' = false) ->
  passes_gate ext full c = true ->
  evaluated ext full (pre ++ c :: post) = pre ++ [c] /\
  find (passes_gate ext full) (pre ++ c :: post) = Some c.
Proof.
  intros Hpre Hc. induction pre as [|a pre IH]; cbn.
  - now rewrite Hc.
  - rewrite (Hpre a (or_introl eq_refl)).
    destruct IH as [-> ->]; [intros c' Hc'; apply Hpre; now right|].
    split; reflexivity.
Qed.

Lemma evaluated_none_pass full contours :
  (forall c, In c contours -> passes_gate ext full c = false) ->
  evaluated ext full contours = contours /\
  find (passes_gate ext full) contours = None.
Proof.
  intros H. induction contours as [|a l IH]; cbn; [split; reflexivity|].
  rewrite (H a (or_introl eq_refl)).
  destruct IH as [-> ->]; [intros c Hc; apply H; now right|].
  split; reflexivity.
Qed.

(** The first four-corner candidate is among the evaluated ones. *)
Lemma find_quadrilateral_evaluated full contours :
  find (is_quadrilateral ext) (evaluated ext full contours) =
  find (is_quadrilateral ext) contours.
Proof.
  induction contours as [|a l IH]; cbn; [reflexivity|].
  destruct (passes_gate ext full a) eqn:Hp; cbn.
  - now rewrite (passes_gate_is_quadrilateral _ _ Hp).
  - now rewrite IH.
Qed.

(** *** find_best_card_contour and scan_id_card, step by step *)

Lemma find_best_card_contour_run edges full (t : list (event image lib_error)) :
  let contours := largest_contours ext edges in
  let t' := t ++ FindContours edges
              :: loop_events ext full (evaluated ext full contours) in
  find_best_card_contour ext edges full t =
  match find (passes_gate ext full) contours,
        find (is_quadrilateral ext) contours with
  | Some c, _ => (inr (approxPolyDP ext c), t')
  | None, Some c => (inr (approxPolyDP ext c), t' ++ [Print WarningFallback])
  | None, None => (inl (RuntimeError no_quadrilateral_message), t')
  end.
Proof.
  cbv zeta. unfold find_best_card_contour.
  unfold bind at 1. unfold emit at 1.
  unfold bind at 1. rewrite candidate_loop_run.
  cbn [fst snd]. unfold fallback_after. rewrite find_quadrilateral_evaluated.
  rewrite <- app_assoc. cbn [app].
  destruct (find (passes_gate ext full) (largest_contours ext edges)) as [c|];
    cbn [option_map].
  - reflexivity.
  - destruct (find (is_quadrilateral ext) (largest_contours ext edges)) as [c|];
      cbn [option_map]; reflexivity.
Qed.

Lemma detect_and_correct_run path (t : list (event image lib_error)) :
  detect_and_correct ext path t =
  match imread ext path with
  | None => (inl (ValueError (load_failure_message path)), t ++ [Imread path])
  | Some full =>
      match resize_to_processing_height ext full with
      | inl e => (inl (LibraryError e), t ++ [Imread path])
      | inr small =>
          match find_best_card_contour ext (detect_edges ext small) full
                  (t ++ [Imread path]) with
          | (inl e, t1) => (inl e, t1)
          | (inr best, t1) =>
              (match warp ext full best with
               | inl e => inl (LibraryError e)
               | inr corrected => inr (resize_to_card ext corrected)
               end,
               t1 ++ [PerspectiveCorrection full best])
          end
      end
  end.
Proof.
  unfold detect_and_correct, load_and_resize_image.
  unfold bind at 1 2. unfold emit at 1.
  destruct (imread ext path) as [full|]; [|reflexivity].
  destruct (resize_to_processing_height ext full) as [e | small];
    [reflexivity|].
  cbn [ret fst snd]. unfold bind at 1.
  destruct (find_best_card_contour ext _ full (t ++ [Imread path]))
    as [[e | best] t1]; [reflexivity|].
  unfold bind. rewrite apply_perspective_correction_run.
  destruct (warp ext full best); reflexivity.
Qed.

Lemma scan_id_card_by_stages path side (t : list (event image lib_error)) :
  scan_id_card ext path side t =
  match detect_and_correct ext path t with
  | (inl e, t') => (inl e, t')
  | (inr final, t') =>
      if String.eqb side "front" then
        (inr final,
         t' ++ [Imwrite "temp_front.jpg" final;
                Print (Success side "temp_front.jpg")])
      else if String.eqb side "back" then
        (inr final,
         t' ++ [Imwrite "temp_back.jpg" final;
                Print (Success side "temp_back.jpg")])
      else (inl (ValueError (invalid_side_message side)), t')
  end.
Proof.
  unfold scan_id_card, detect_and_correct, bind.
  destruct (load_and_resize_image ext path t) as [[e | loaded] t0]; [reflexivity|].
  destruct (find_best_card_contour ext _ (fst loaded) t0)
    as [[e | best] t1]; [reflexivity|].
  destruct (apply_perspective_correction ext (fst loaded) best t1)
    as [[e | corrected] t2]; [reflexivity|].
  unfold emit, ret, raise.
  destruct (String.eqb side "front"); [now rewrite <- app_assoc|].
  destruct (String.eqb side "back"); [now rewrite <- app_assoc|].
  reflexivity.
Qed.

(** *** The ranking *)

Lemma In_insert_by_area c l x :
  In x (insert_by_area ext c l) -> x = c \/ In x l.
Proof.
  induction l as [|d l IH]; cbn.
  - intros [<- | []]. now left.
  - destruct (contourArea ext c <? contourArea ext d); cbn.
    + intros [<- | H]; [right; now left|].
      destruct (IH H) as [-> | H']; [now left | right; now right].
    + intros [<- | [<- | H]]; [now left | right; now left | right; now right].
Qed.

Lemma insert_by_area_sorted c l :
  StronglySorted (fun a b => contourArea ext b <= contourArea ext a) l ->
  StronglySorted (fun a b => contourArea ext b <= contourArea ext a)
    (insert_by_area ext c l).
Proof.
  induction 1 as [|d l Hs IH Hd]; cbn.
  - constructor; constructor.
  - destruct (Z.ltb_spec (contourArea ext c) (contourArea ext d)) as [Hlt | Hge].
    + constructor; [exact IH|].
      apply Forall_forall. intros x Hx.
      destruct (In_insert_by_area _ _ _ Hx) as [-> | Hin]; [lia|].
      rewrite Forall_forall in Hd. now apply Hd.
    + constructor; [constructor; assumption|].
      constructor; [exact Hge|].
      rewrite Forall_forall in Hd. apply Forall_forall. intros x Hx.
      specialize (Hd x Hx). cbn in Hd. lia.
Qed.

Lemma sorted_by_area_sorted l :
  StronglySorted (fun a b => contourArea ext b <= contourArea ext a)
    (sorted_by_area ext l).
Proof.
  induction l as [|c l IH]; cbn; [constructor|].
  now apply insert_by_area_sorted.
Qed.

Lemma In_firstn {A} n (l : list A) x : In x (firstn n l) -> In x l.
Proof.
  revert n. induction l as [|a l IH]; intros [|n]; cbn; try tauto.
  intros [<- | H]; [now left | right; eauto].
Qed.

Lemma firstn_sorted {A} (R : A -> A -> Prop) n l :
  StronglySorted R l -> StronglySorted R (firstn n l).
Proof.
  intros H. revert n. induction H as [|a l Hs IH Ha]; intros [|n]; cbn;
    try constructor; auto.
  rewrite Forall_forall in Ha. apply Forall_forall.
  intros x Hx. apply Ha. now apply In_firstn in Hx.
Qed.

Lemma sorted_after {A} (R : A -> A -> Prop) pre c post :
  StronglySorted R (pre ++ c :: post) -> Forall (R c) post.
Proof.
  induction pre as [|a pre IH]; cbn; intros H; inversion H; subst; auto.
Qed.

Lemma In_insert_by_area_intro c l x :
  x = c \/ In x l -> In x (insert_by_area ext c l).
Proof.
  induction l as [|d l IH]; cbn.
  - intros [-> | []]. now left.
  - destruct (contourArea ext c <? contourArea ext d); cbn.
    + intros [-> | [<- | H]]; [right; apply IH; now left | now left
                               | right; apply IH; now right].
    + intros [-> | [<- | H]]; [now left | right; now left | right; now right].
Qed.

Lemma In_sorted_by_area l x : In x l -> In x (sorted_by_area ext l).
Proof.
  induction l as [|c l IH]; cbn; [tauto|].
  intros [<- | H]; apply In_insert_by_area_intro; [now left | right; auto].
Qed.

(** The candidates are ranked by area, largest first: a detected contour
    that is not ranked before [c] has at most the area of [c]. *)
Lemma detected_contours_ranked edges pre c post :
  largest_contours ext edges = pre ++ c :: post ->
  forall c', In c' (findContours ext edges) ->
    In c' pre \/ contourArea ext c' <= contourArea ext c.
Proof.
  intros Hl c' Hin.
  pose proof (sorted_by_area_sorted (findContours ext edges)) as Hs.
  apply In_sorted_by_area in Hin.
  rewrite <- (firstn_skipn 5 (sorted_by_area ext (findContours ext edges)))
    in Hs, Hin.
  fold (largest_contours ext edges) in Hs, Hin.
  rewrite Hl, <- app_assoc in Hs, Hin. cbn [app] in Hs, Hin.
  apply sorted_after in Hs. rewrite Forall_forall in Hs.
  apply in_app_or in Hin as [Hin | [<- | Hin]].
  - now left.
  - right. lia.
  - right. now apply Hs.
Qed.

(** *** The calls in the trace *)

(** Every perspective correction and every text recognition among the
    events of a list of candidates is made for one of these candidates. *)
Lemma loop_events_calls full contours ev :
  In ev (loop_events ext full contours) ->
  match ev with
  | PerspectiveCorrection img corners =>
      img = full /\
      exists c, In c contours /\ corners = approxPolyDP ext c
  | ImageToString region _ =>
      exists c corrected,
        In c contours /\
        warp ext full (approxPolyDP ext c) = inr corrected /\
        region = id_number_region ext (resize_to_card ext corrected)
  | Print _ => True
  | _ => False
  end.
Proof.
  unfold loop_events. rewrite in_flat_map.
  intros (c & Hc & Hev).
  destruct (is_quadrilateral ext c); [|destruct Hev].
  unfold attempt_events in Hev. destruct Hev as [<- | Hev].
  { split; [reflexivity|]. now exists c. }
  destruct (warp ext full (approxPolyDP ext c)) as [e | corrected] eqn:Hw.
  { destruct Hev as [<- | []]. exact I. }
  apply in_app_or in Hev as [Hev | Hev].
  - unfold ocr_events in Hev.
    destruct Hev as [<- | Hev]; [now exists c, corrected|].
    destruct (image_to_string ext _ AraNumber); [|destruct Hev].
    destruct Hev as [<- | []]. now exists c, corrected.
  - destruct (recognized_text ext _); destruct Hev as [<- | []]; exact I.
Qed.

(** *** Claims *)

(** C4: as soon as a candidate passes the validity gate the loop stops.
    When [c] is the first candidate of the ranking that passes, the result
    is [c], the events are those of the candidates up to [c], the loop
    behaves as if the ranking ended at [c], [c] has the largest area among
    the detected contours that pass, whatever their confidence, and every
    normalization and every text recognition of the loop is made for a
    candidate ranked no later than [c]. *)
Theorem loop_stops_at_first_valid_candidate
    edges full pre c post (t : list (event image lib_error)) :
  largest_contours ext edges = pre ++ c :: post ->
  (forall c', In c' pre -> passes_gate ext full c' = false) ->
  passes_gate ext full c = true ->
  find_best_card_contour ext edges full t =
    (inr (approxPolyDP ext c),
     t ++ FindContours edges :: loop_events ext full (pre ++ [c])) /\
  (forall fallback t0,
     candidate_loop ext (pre ++ c :: post) full fallback t0 =
     candidate_loop ext (pre ++ [c]) full fallback t0) /\
  (forall c', In c' (findContours ext edges) ->
     passes_gate ext full c' = true ->
     contourArea ext c' <= contourArea ext c) /\
  (forall ev, In ev (loop_events ext full (pre ++ [c])) ->
     match ev with
     | PerspectiveCorrection _ corners =>
         exists c', In c' (pre ++ [c]) /\ corners = approxPolyDP ext c'
     | ImageToString region _ =>
         exists c' corrected,
           In c' (pre ++ [c]) /\
           warp ext full (approxPolyDP ext c') = inr corrected /\
           region = id_number_region ext (resize_to_card ext corrected)
     | _ => True
     end).
Proof.
  intros Hl Hpre Hc.
  destruct (evaluated_first_pass full pre c post Hpre Hc) as [Heval Hfind].
  destruct (evaluated_first_pass full pre c [] Hpre Hc) as [Heval' Hfind'].
  split; [|split; [|split]].
  - rewrite find_best_card_contour_run. cbv zeta.
    now rewrite Hl, Hfind, Heval.
  - intros fallback t0. rewrite !candidate_loop_run.
    now rewrite Heval, Heval', Hfind, Hfind'.
  - intros c' Hin Hp.
    destruct (detected_contours_ranked edges pre c post Hl c' Hin) as [Hin' | Hle].
    + rewrite (Hpre c' Hin') in Hp. discriminate.
    + exact Hle.
  - intros ev Hev. apply loop_events_calls in Hev.
    destruct ev; try exact I; [now destruct Hev | exact Hev].
Qed.

(** C2, amended: the fallback is the first candidate whose approximation
    has four corners, whether or not its normalization succeeds; when no
    candidate passes the validity gate and a fallback exists, the fallback
    is returned, after a warning. *)
Theorem fallback_is_first_quadrilateral
    edges full (t : list (event image lib_error)) :
  let contours := largest_contours ext edges in
  (exists best t',
     candidate_loop ext contours full None t =
     (inr (best,
           option_map (approxPolyDP ext) (find (is_quadrilateral ext) contours)),
      t')) /\
  ((forall c, In c contours -> passes_gate ext full c = false) ->
   forall c, find (is_quadrilateral ext) contours = Some c ->
     find_best_card_contour ext edges full t =
     (inr (approxPolyDP ext c),
      t ++ FindContours edges :: loop_events ext full contours
        ++ [Print WarningFallback])).
Proof.
  cbv zeta. split.
  - rewrite candidate_loop_run. unfold fallback_after.
    rewrite find_quadrilateral_evaluated. eauto.
  - intros Hnone c Hc.
    destruct (evaluated_none_pass full _ Hnone) as [Hev Hfind].
    rewrite find_best_card_contour_run. cbv zeta.
    rewrite Hfind, Hc, Hev, <- app_assoc. reflexivity.
Qed.


(** C7, amended: the loop catches every exception raised while a
    candidate is normalized or validated, prints a warning and goes on
    with the next candidate; [find_best_card_contour] fails only with the
    no-quadrilateral error, exactly when no candidate was accepted and
    there is no fallback; and a scan fails in exactly five ways: with the
    image-load [ValueError] when the file cannot be read; with the
    library error of the resize to the processing height; with the
    no-quadrilateral [RuntimeError]; with the library error of the final
    perspective correction of the contour that [find_best_card_contour]
    returned, which is made outside the loop; and with the
    invalid-card-side [ValueError] when that correction succeeded and the
    side is neither front nor back. *)
Theorem scan_failures (t : list (event image lib_error)) :
  (forall c rest full fallback e t1,
     is_quadrilateral ext c = true ->
     try_candidate ext (approxPolyDP ext c) full t = (inl e, t1) ->
     candidate_loop ext (c :: rest) full fallback t =
     candidate_loop ext rest full (held_or fallback (approxPolyDP ext c))
       (t1 ++ [Print (WarningFailed e)])) /\
  (forall edges full,
     (forall e, fst (find_best_card_contour ext edges full t) = inl e ->
                e = RuntimeError no_quadrilateral_message) /\
     (fst (find_best_card_contour ext edges full t)
        = inl (RuntimeError no_quadrilateral_message) <->
      find (passes_gate ext full) (largest_contours ext edges) = None /\
      find (is_quadrilateral ext) (largest_contours ext edges) = None)) /\
  (forall path side e,
     fst (scan_id_card ext path side t) = inl e <->
     (imread ext path = None /\
      e = ValueError (load_failure_message path)) \/
     (exists full library_error,
        imread ext path = Some full /\
        resize_to_processing_height ext full = inl library_error /\
        e = LibraryError library_error) \/
     (exists full small,
        imread ext path = Some full /\
        resize_to_processing_height ext full = inr small /\
        fst (find_best_card_contour ext (detect_edges ext small) full
               (t ++ [Imread path]))
          = inl (RuntimeError no_quadrilateral_message) /\
        e = RuntimeError no_quadrilateral_message) \/
     (exists full small best library_error,
        imread ext path = Some full /\
        resize_to_processing_height ext full = inr small /\
        fst (find_best_card_contour ext (detect_edges ext small) full
               (t ++ [Imread path])) = inr best /\
        warp ext full best = inl library_error /\
        e = LibraryError library_error) \/
     (exists full small best corrected,
        imread ext path = Some full /\
        resize_to_processing_height ext full = inr small /\
        fst (find_best_card_contour ext (detect_edges ext small) full
               (t ++ [Imread path])) = inr best /\
        warp ext full best = inr corrected /\
        side <> "front"%string /\ side <> "back"%string /\
        e = ValueError (invalid_side_message side))).
Proof.
  split; [|split].
  - intros c rest full fallback e t1 Hq Htry.
    cbn [candidate_loop]. unfold is_quadrilateral in Hq. rewrite Hq.
    unfold bind at 1. unfold try_except. rewrite Htry.
    unfold warn_and_continue, bind, emit, ret. reflexivity.
  - intros edges full. rewrite find_best_card_contour_run. cbv zeta.
    destruct (find (passes_gate ext full) (largest_contours ext edges)) as [c|] eqn:Hp.
    + cbn [fst]. split; [discriminate|].
      split; [discriminate | intros [H _]; discriminate].
    + destruct (find (is_quadrilateral ext) (largest_contours ext edges)) as [c|] eqn:Hq;
        cbn [fst].
      * split; [discriminate|].
        split; [discriminate | intros [_ H]; discriminate].
      * split; [now intros e [= <-]|]. split; auto.
  - intros path side e.
    rewrite scan_id_card_by_stages, detect_and_correct_run.
    destruct (imread ext path) as [full|] eqn:Hread.
    2: { cbn [fst]. split.
         - intros [= <-]. left. now split.
         - intros [[_ ->] | [H | [H | [H | H]]]]; [reflexivity | | | |];
             decompose record H; discriminate. }
    destruct (resize_to_processing_height ext full) as [le | small] eqn:Hsize.
    { cbn [fst]. split.
      - intros [= <-]. right. left. now exists full, le.
      - intros [[H _] | [H | [H | [H | H]]]]; [discriminate | | | |];
          decompose record H; congruence. }
    destruct (find_best_card_contour ext (detect_edges ext small) full
                (t ++ [Imread path])) as [[e0 | best] t1] eqn:Hbest.
    { assert (He0 : e0 = RuntimeError no_quadrilateral_message).
      { pose proof (find_best_card_contour_run (detect_edges ext small) full
                      (t ++ [Imread path])) as Hrun.
        cbv zeta in Hrun. rewrite Hbest in Hrun.
        destruct (find (passes_gate ext full) _);
          [discriminate|destruct (find (is_quadrilateral ext) _)];
          [discriminate|]. now injection Hrun as ->. }
      subst e0. cbn [fst]. split.
      - intros [= <-]. right. right. left. exists full, small.
        rewrite Hsize, Hbest. repeat split.
      - intros [[H _] | [H | [H | [H | H]]]]; [discriminate | | | |];
          decompose record H;
          repeat match goal with
                 | Hx : Some _ = Some _ |- _ => injection Hx as <-
                 end;
          try congruence;
          match goal with
          | Hx : resize_to_processing_height ext full = inr ?s |- _ =>
              assert (s = small) by congruence; subst s
          end;
          rewrite Hbest in *; cbn [fst] in *; congruence. }
    destruct (warp ext full best) as [le | corrected] eqn:Hwarp.
    { cbn [fst]. split.
      - intros [= <-]. right. right. right. left.
        exists full, small, best, le. rewrite Hsize, Hbest. repeat split.
        exact Hwarp.
      - intros [[H _] | [H | [H | [H | H]]]]; [discriminate | | | |];
          decompose record H;
          repeat match goal with
                 | Hx : Some _ = Some _ |- _ => injection Hx as <-
                 end;
          try congruence;
          match goal with
          | Hx : resize_to_processing_height ext full = inr ?s |- _ =>
              assert (s = small) by congruence; subst s
          end;
          rewrite Hbest in *; cbn [fst] in *; congruence. }
    destruct (String.eqb_spec side "front") as [Hfront | Hfront].
    { cbn [fst]. split; [discriminate|].
      intros [[H _] | [H | [H | [H | H]]]]; [discriminate | | | |];
        decompose record H;
        repeat match goal with
               | Hx : Some _ = Some _ |- _ => injection Hx as <-
               end;
        try congruence;
        match goal with
        | Hx : resize_to_processing_height ext full = inr ?s |- _ =>
            assert (s = small) by congruence; subst s
        end;
        rewrite Hbest in *; cbn [fst] in *; congruence. }
    destruct (String.eqb_spec side "back") as [Hback | Hback].
    { cbn [fst]. split; [discriminate|].
      intros [[H _] | [H | [H | [H | H]]]]; [discriminate | | | |];
        decompose record H;
        repeat match goal with
               | Hx : Some _ = Some _ |- _ => injection Hx as <-
               end;
        try congruence;
        match goal with
        | Hx : resize_to_processing_height ext full = inr ?s |- _ =>
            assert (s = small) by congruence; subst s
        end;
        rewrite Hbest in *; cbn [fst] in *; congruence. }
    cbn [fst]. split.
    + intros [= <-]. right. right. right. right.
      exists full, small, best, corrected. rewrite Hsize, Hbest.
      repeat split; assumption.
    + intros [[H _] | [H | [H | [H | H]]]]; [discriminate | | | |];
        decompose record H;
        repeat match goal with
               | Hx : Some _ = Some _ |- _ => injection Hx as <-
               end;
        try congruence;
        match goal with
        | Hx : resize_to_processing_height ext full = inr ?s |- _ =>
            assert (s = small) by congruence; subst s
        end;
        rewrite Hbest in *; cbn [fst] in *; congruence.
Qed.

(** C10, amended: a scan with a card side other than front and back always
    raises.  It raises the invalid-card-side [ValueError] exactly when
    image loading, detection, validation and the final perspective
    correction have all succeeded, with the events of all these steps and
    nothing written; when one of these steps fails, its error is raised
    instead. *)
Theorem invalid_side_raises_after_pipeline
    path side (t : list (event image lib_error)) :
  side <> "front"%string ->
  side <> "back"%string ->
  (exists e t', scan_id_card ext path side t = (inl e, t')) /\
  (forall t',
     scan_id_card ext path side t
       = (inl (ValueError (invalid_side_message side)), t') <->
     exists final, detect_and_correct ext path t = (inr final, t')) /\
  (forall e t',
     detect_and_correct ext path t = (inl e, t') ->
     scan_id_card ext path side t = (inl e, t')) /\
  (forall final t',
     detect_and_correct ext path t = (inr final, t') ->
     exists full small best corrected t1,
       imread ext path = Some full /\
       resize_to_processing_height ext full = inr small /\
       find_best_card_contour ext (detect_edges ext small) full
         (t ++ [Imread path]) = (inr best, t1) /\
       warp ext full best = inr corrected /\
       final = resize_to_card ext corrected /\
       t' = t1 ++ [PerspectiveCorrection full best]).
Proof.
  intros Hfront Hback.
  apply String.eqb_neq in Hfront, Hback.
  assert (Hstages := scan_id_card_by_stages path side t).
  rewrite Hfront, Hback in Hstages.
  split; [|split; [|split]].
  - rewrite Hstages.
    destruct (detect_and_correct ext path t) as [[e | final] t']; eauto.
  - intros t'. rewrite Hstages.
    destruct (detect_and_correct ext path t) as [[e | final] t1] eqn:Hd.
    + split.
      * intros [= -> ->]. exfalso.
        rewrite detect_and_correct_run in Hd.
        destruct (imread ext path) as [full|]; [|discriminate].
        destruct (resize_to_processing_height ext full) as [le | small];
          [discriminate|].
        rewrite find_best_card_contour_run in Hd. cbv zeta in Hd.
        destruct (find (passes_gate ext full) _);
          [|destruct (find (is_quadrilateral ext) _)];
          try destruct (warp ext full _); discriminate.
      * intros [final [= ]].
    + split.
      * intros [= ->]. now exists final.
      * intros [final' [= -> ->]]. reflexivity.
  - intros e t' Hd. now rewrite Hstages, Hd.
  - intros final t' Hd. rewrite detect_and_correct_run in Hd.
    destruct (imread ext path) as [full|]; [|discriminate].
    destruct (resize_to_processing_height ext full) as [le | small] eqn:Hsize;
      [discriminate|].
    destruct (find_best_card_contour ext _ full (t ++ [Imread path]))
      as [[e | best] t1] eqn:Hbest; [discriminate|].
    destruct (warp ext full best) as [le | corrected] eqn:Hw; [discriminate|].
    injection Hd as <- <-.
    exists full, small, best, corrected, t1. repeat split; assumption.
Qed.

End PipelineFacts.

(** *** The claims on concrete externals *)

Lemma loop_stops_at_first_valid_candidate_witness :
  find_best_card_contour world_two_valid [] [] [] =
    (inr quad_card,
     [] ++ FindContours []
        :: loop_events world_two_valid []
             ([(135000, pentagon); (90000, quad_large)] ++ [(40000, quad_card)])) /\
  (forall fallback t0,
     candidate_loop world_two_valid
       ([(135000, pentagon); (90000, quad_large)]
          ++ (40000, quad_card) :: [(1000, quad_small)]) [] fallback t0 =
     candidate_loop world_two_valid
       ([(135000, pentagon); (90000, quad_large)] ++ [(40000, quad_card)])
       [] fallback t0) /\
  (forall c', In c' (findContours world_two_valid []) ->
     passes_gate world_two_valid [] c' = true ->
     contourArea world_two_valid c' <= contourArea world_two_valid (40000, quad_card)) /\
  (forall ev,
     In ev (loop_events world_two_valid []
              ([(135000, pentagon); (90000, quad_large)] ++ [(40000, quad_card)])) ->
     match ev with
     | PerspectiveCorrection _ corners =>
         exists c',
           In c' ([(135000, pentagon); (90000, quad_large)] ++ [(40000, quad_card)]) /\
           corners = approxPolyDP world_two_valid c'
     | ImageToString region _ =>
         exists c' corrected,
           In c' ([(135000, pentagon); (90000, quad_large)] ++ [(40000, quad_card)]) /\
           warp world_two_valid [] (approxPolyDP world_two_valid c') = inr corrected /\
           region = id_number_region world_two_valid
                      (resize_to_card world_two_valid corrected)
     | _ => True
     end).
Proof.
  apply (loop_stops_at_first_valid_candidate world_two_valid [] []
           [(135000, pentagon); (90000, quad_large)] (40000, quad_card)
           [(1000, quad_small)] []).
  - reflexivity.
  - intros c' [<- | [<- | []]]; reflexivity.
  - reflexivity.
Defined.

(** The candidate that is accepted reads twelve zeros, of confidence 0.0;
    the smaller candidate behind it, never looked at, would read an
    identifier of confidence 1.0. *)
Example accepted_candidate_not_highest_confidence :
  fst (find_best_card_contour world_two_valid [] [] []) = inr quad_card /\
  calculate_egyptian_id_confidence_score basic_unicode (py "000000000000")
    = float_0_0 /\
  passes_gate world_two_valid [] (1000, quad_small) = true /\
  calculate_egyptian_id_confidence_score basic_unicode (py "29901230112345")
    = float_1_0.
Proof. repeat split. Qed.

(** C2, as stated: the largest quadrilateral cannot be normalized, the
    second one can but yields three digits.  The first candidate whose
    normalization succeeds is the second one, and the fallback, which is
    returned, is the first. *)
Lemma fallback_is_not_first_normalized :
  let contours := largest_contours world_first_fails [] in
  find (normalizes world_first_fails []) contours = Some (40000, quad_card) /\
  fst (candidate_loop world_first_fails contours [] None [])
    = inr (None, Some quad_large) /\
  fst (find_best_card_contour world_first_fails [] [] []) = inr quad_large /\
  quad_large <> quad_card.
Proof.
  cbv zeta. split; [reflexivity|]. split; [reflexivity|].
  split; [reflexivity | discriminate].
Qed.

Lemma fallback_is_first_quadrilateral_witness :
  find_best_card_contour world_first_fails [] [] [] =
  (inr quad_large,
   [] ++ FindContours []
      :: loop_events world_first_fails [] (largest_contours world_first_fails [])
      ++ [Print WarningFallback]).
Proof.
  refine (proj2 (fallback_is_first_quadrilateral world_first_fails [] [] [])
            _ (90000, quad_large) _).
  - intros c [<- | [<- | []]]; reflexivity.
  - reflexivity.
Defined.


(** C7, as stated: with a card in the picture and the card side "left" the
    scan fails, and the failure is neither the image-load error nor the
    no-quadrilateral error. *)
Lemma scan_surfaces_invalid_side :
  exists t',
    scan_id_card world_two_valid "a.jpg" "left" []
      = (inl (ValueError (invalid_side_message "left")), t') /\
    ValueError (lib_error := string) (invalid_side_message "left")
      <> ValueError (load_failure_message "a.jpg") /\
    ValueError (lib_error := string) (invalid_side_message "left")
      <> RuntimeError no_quadrilateral_message.
Proof.
  exists (snd (scan_id_card world_two_valid "a.jpg" "left" [])).
  split; [vm_compute; reflexivity|]. split; discriminate.
Qed.

(** When the fallback is a candidate that cannot be normalized, the final
    perspective correction raises the same library error again, outside
    the loop. *)
Example scan_surfaces_final_correction_error :
  fst (scan_id_card world_first_fails "a.jpg" "front" [])
  = inl (LibraryError "cv2.error"%string).
Proof. reflexivity. Qed.

(** A photograph one pixel wide is read, and the resize to the processing
    height raises. *)
Example scan_surfaces_resize_error :
  scan_id_card world_two_valid "narrow.jpg" "front" []
  = (inl (LibraryError "cv2.error"%string), [Imread "narrow.jpg"]).
Proof. reflexivity. Qed.

(** The first candidate of [world_first_fails] fails inside the loop, and
    the loop goes on; the scan of that picture then fails in the final
    correction, and the scan of the narrow photograph in the resize. *)
Lemma scan_failures_witness :
  (is_quadrilateral world_first_fails (90000, quad_large) = true /\
   try_candidate world_first_fails quad_large [] []
     = (inl (LibraryError "cv2.error"%string),
        [PerspectiveCorrection [] quad_large]) /\
   candidate_loop world_first_fails
     [(90000, quad_large); (40000, quad_card)] [] None [] =
   candidate_loop world_first_fails [(40000, quad_card)] []
     (held_or None quad_large)
     ([PerspectiveCorrection [] quad_large]
        ++ [Print (WarningFailed (LibraryError "cv2.error"%string))])) /\
  (fst (scan_id_card world_first_fails "a.jpg" "front" [])
     = inl (LibraryError "cv2.error"%string) /\
   ((imread world_first_fails "a.jpg" = None /\
    LibraryError "cv2.error"%string = ValueError (load_failure_message "a.jpg")) \/
   (exists full library_error,
      imread world_first_fails "a.jpg" = Some full /\
      resize_to_processing_height world_first_fails full = inl library_error /\
      LibraryError "cv2.error"%string = LibraryError library_error) \/
   (exists full small,
      imread world_first_fails "a.jpg" = Some full /\
      resize_to_processing_height world_first_fails full = inr small /\
      fst (find_best_card_contour world_first_fails (detect_edges world_first_fails small) full
             ([] ++ [Imread "a.jpg"]))
        = inl (RuntimeError no_quadrilateral_message) /\
      LibraryError "cv2.error"%string = RuntimeError no_quadrilateral_message) \/
   (exists full small best library_error,
      imread world_first_fails "a.jpg" = Some full /\
      resize_to_processing_height world_first_fails full = inr small /\
      fst (find_best_card_contour world_first_fails (detect_edges world_first_fails small) full
             ([] ++ [Imread "a.jpg"])) = inr best /\
      warp world_first_fails full best = inl library_error /\
      LibraryError "cv2.error"%string = LibraryError library_error) \/
   (exists full small best corrected,
      imread world_first_fails "a.jpg" = Some full /\
      resize_to_processing_height world_first_fails full = inr small /\
      fst (find_best_card_contour world_first_fails (detect_edges world_first_fails small) full
             ([] ++ [Imread "a.jpg"])) = inr best /\
      warp world_first_fails full best = inr corrected /\
      "front"%string <> "front"%string /\ "front"%string <> "back"%string /\
      LibraryError "cv2.error"%string = ValueError (invalid_side_message "front")))) /\
  ((exists full library_error,
      imread world_two_valid "narrow.jpg" = Some full /\
      resize_to_processing_height world_two_valid full = inl library_error /\
      LibraryError "cv2.error"%string = LibraryError library_error) /\
   fst (scan_id_card world_two_valid "narrow.jpg" "left" [])
     = inl (LibraryError "cv2.error"%string)).
Proof.
  split; [|split].
  - split; [reflexivity|]. split; [reflexivity|].
    apply (proj1 (scan_failures world_first_fails [])
             (90000, quad_large) [(40000, quad_card)] [] None
             (LibraryError "cv2.error"%string)
             [PerspectiveCorrection [] quad_large]);
      reflexivity.
  - split; [reflexivity|].
    apply (proj1 (proj2 (proj2 (scan_failures world_first_fails []))
                    "a.jpg"%string "front"%string
                    (LibraryError "cv2.error"%string))).
    reflexivity.
  - split.
    + exists narrow_photograph, "cv2.error"%string. repeat split.
    + apply (proj2 (proj2 (proj2 (scan_failures world_two_valid []))
                      "narrow.jpg"%string "left"%string
                      (LibraryError "cv2.error"%string))).
      right. left. exists narrow_photograph, "cv2.error"%string.
      repeat split.
Defined.

(** C10, as stated: with no contour in the picture and the card side
    "left", the scan raises the no-quadrilateral [RuntimeError], not a
    [ValueError], and no perspective correction has run. *)
Lemma invalid_side_without_quadrilateral_raises_runtime_error :
  "left"%string <> "front"%string /\
  "left"%string <> "back"%string /\
  scan_id_card world_no_contour "a.jpg" "left" []
    = (inl (RuntimeError no_quadrilateral_message),
       [Imread "a.jpg"; FindContours []]) /\
  forall msg,
    fst (scan_id_card world_no_contour "a.jpg" "left" []) <> inl (ValueError msg).
Proof.
  split; [discriminate|]. split; [discriminate|].
  split; [reflexivity|]. intros msg. discriminate.
Qed.

Lemma invalid_side_raises_after_pipeline_witness :
  (exists e t', scan_id_card world_two_valid "a.jpg" "left" [] = (inl e, t')) /\
  (forall t',
     scan_id_card world_two_valid "a.jpg" "left" []
       = (inl (ValueError (invalid_side_message "left")), t') <->
     exists final, detect_and_correct world_two_valid "a.jpg" [] = (inr final, t')).
Proof.
  split.
  - apply (invalid_side_raises_after_pipeline world_two_valid "a.jpg" "left" []);
      discriminate.
  - apply (invalid_side_raises_after_pipeline world_two_valid "a.jpg" "left" []);
      discriminate.
Defined.

End ScannerFacts.


(* ================================================================== *)
(** ** More facts about the confidence score *)

Module ScoreFacts.
Import Scoring ScoringFacts.

Lemma str_isdigit_nonempty U s :
  str_isdigit U s = true -> match s with [] => true | _ => false end = false.
Proof. destruct s; [discriminate | reflexivity]. Qed.

(** On a digit string the score is the score of its four checks. *)
Lemma score_of_digit_string U id_number :
  str_isdigit U id_number = true ->
  calculate_egyptian_id_confidence_score U id_number =
  score_of_checks (century_check id_number) (month_check U id_number)
    (day_check U id_number) (governorate_check id_number).
Proof.
  intros Hd. rewrite score_by_checks.
  now rewrite (str_isdigit_nonempty U _ Hd), Hd.
Qed.

Lemma score_of_checks_monotone c m d g c' m' d' g' :
  implb c c' = true -> implb m m' = true ->
  implb d d' = true -> implb g g' = true ->
  SFleb (score_of_checks c m d g) (score_of_checks c' m' d' g') = true.
Proof.
  destruct c, c'; try discriminate; intros _;
    destruct m, m'; try discriminate; intros _;
    destruct d, d'; try discriminate; intros _;
    destruct g, g'; try discriminate; intros _;
    vm_compute; reflexivity.
Qed.

(** X4: between two digit strings, when every check passed by the first is
    passed by the second, the score of the second is at least the score of
    the first: rounding in the floating-point sum never reverses the
    order. *)
Theorem confidence_score_monotone (U : UnicodeData) (id1 id2 : pystr) :
  str_isdigit U id1 = true ->
  str_isdigit U id2 = true ->
  implb (century_check id1) (century_check id2) = true ->
  implb (month_check U id1) (month_check U id2) = true ->
  implb (day_check U id1) (day_check U id2) = true ->
  implb (governorate_check id1) (governorate_check id2) = true ->
  SFleb (calculate_egyptian_id_confidence_score U id1)
        (calculate_egyptian_id_confidence_score U id2) = true.
Proof.
  intros H1 H2 Hc Hm Hd Hg.
  rewrite (score_of_digit_string U id1 H1), (score_of_digit_string U id2 H2).
  now apply score_of_checks_monotone.
Qed.

Lemma confidence_score_monotone_witness :
  SFleb (calculate_egyptian_id_confidence_score basic_unicode (py "29913014500000"))
        (calculate_egyptian_id_confidence_score basic_unicode (py "29901230100000"))
  = true.
Proof.
  apply (confidence_score_monotone basic_unicode
           (py "29913014500000") (py "29901230100000")); reflexivity.
Defined.

(** X5: the score is 1.0 exactly for the digit strings that pass all four
    checks: century digit, month, day and governorate code. *)
Theorem confidence_score_full (U : UnicodeData) (id_number : pystr) :
  calculate_egyptian_id_confidence_score U id_number = float_1_0 <->
  str_isdigit U id_number = true /\
  century_check id_number = true /\
  month_check U id_number = true /\
  day_check U id_number = true /\
  governorate_check id_number = true.
Proof.
  rewrite score_by_checks.
  destruct (str_isdigit U id_number) eqn:Hd.
  - rewrite (str_isdigit_nonempty U _ Hd). cbn [orb negb].
    destruct (century_check id_number), (month_check U id_number),
             (day_check U id_number), (governorate_check id_number);
      split; intros H;
      first [ now repeat split
            | vm_compute in H; discriminate
            | destruct H as (_ & ? & ? & ? & ?); discriminate ].
  - rewrite orb_true_r. split; [discriminate|]. intros [H _]. discriminate.
Qed.

(** X6: a string shorter than 7 characters, too short to hold the date,
    never scores more than the century's 0.10; one shorter than 9
    characters, too short to hold the governorate code, scores below
    0.80. *)
Theorem confidence_score_short (U : UnicodeData) (id_number : pystr) :
  ((length id_number < 7)%nat ->
   calculate_egyptian_id_confidence_score U id_number = float_0_0 \/
   calculate_egyptian_id_confidence_score U id_number = float_0_10) /\
  ((length id_number < 9)%nat ->
   SFltb (calculate_egyptian_id_confidence_score U id_number) float_0_80 = true).
Proof.
  rewrite score_by_checks.
  destruct (match id_number with [] => true | _ => false end
            || negb (str_isdigit U id_number)).
  { split; intros _; [now left | reflexivity]. }
  split; intros Hlen.
  - assert (Hm : month_check U id_number = false).
    { unfold month_check, date_parses.
      now rewrite (proj2 (Nat.leb_gt _ _) Hlen). }
    assert (Hd : day_check U id_number = false).
    { unfold day_check, date_parses.
      now rewrite (proj2 (Nat.leb_gt _ _) Hlen). }
    assert (Hg : governorate_check id_number = false).
    { unfold governorate_check.
      rewrite (proj2 (Nat.leb_gt 9 (length id_number))); [reflexivity | lia]. }
    rewrite Hm, Hd, Hg.
    destruct (century_check id_number); [right | left]; reflexivity.
  - assert (Hg : governorate_check id_number = false).
    { unfold governorate_check.
      now rewrite (proj2 (Nat.leb_gt 9 (length id_number)) Hlen). }
    rewrite Hg.
    destruct (century_check id_number), (month_check U id_number),
             (day_check U id_number); reflexivity.
Qed.

Lemma confidence_score_short_witness :
  (calculate_egyptian_id_confidence_score basic_unicode (py "299123") = float_0_0 \/
   calculate_egyptian_id_confidence_score basic_unicode (py "299123") = float_0_10) /\
  SFltb (calculate_egyptian_id_confidence_score basic_unicode (py "29912301"))
    float_0_80 = true.
Proof.
  split.
  - apply (proj1 (confidence_score_short basic_unicode (py "299123"))).
    cbn; lia.
  - apply (proj2 (confidence_score_short basic_unicode (py "29912301"))).
    cbn; lia.
Defined.

(** *** The characters the score reads *)

Lemma slice_3_5_of_3_9 (s : pystr) : slice 3 5 s = firstn 2 (slice 3 9 s).
Proof. unfold slice. cbn [Nat.sub]. now rewrite firstn_firstn. Qed.

Lemma slice_5_7_of_3_9 (s : pystr) :
  slice 5 7 s = firstn 2 (skipn 2 (slice 3 9 s)).
Proof.
  unfold slice. cbn [Nat.sub].
  rewrite skipn_firstn_comm, skipn_skipn, firstn_firstn. reflexivity.
Qed.

Lemma slice_7_9_of_3_9 (s : pystr) :
  slice 7 9 s = skipn 4 (slice 3 9 s).
Proof.
  unfold slice. cbn [Nat.sub].
  rewrite skipn_firstn_comm, skipn_skipn. reflexivity.
Qed.

(** X7: among digit strings of at least 9 characters the score reads only
    the character at position 0 and those at positions 3 to 8; the year
    (positions 1 and 2) and everything from position 9 on, sequence
    number, gender digit and check digit included, have no influence. *)
Theorem confidence_score_reads_positions (U : UnicodeData) (id1 id2 : pystr) :
  str_isdigit U id1 = true ->
  str_isdigit U id2 = true ->
  (9 <= length id1)%nat ->
  (9 <= length id2)%nat ->
  slice 0 1 id1 = slice 0 1 id2 ->
  slice 3 9 id1 = slice 3 9 id2 ->
  calculate_egyptian_id_confidence_score U id1 =
  calculate_egyptian_id_confidence_score U id2.
Proof.
  intros H1 H2 Hl1 Hl2 H0 H39.
  rewrite (score_of_digit_string U id1 H1), (score_of_digit_string U id2 H2).
  unfold century_check, month_check, day_check, date_parses, governorate_check.
  rewrite !slice_3_5_of_3_9, !slice_5_7_of_3_9, !slice_7_9_of_3_9, H0, H39.
  rewrite (proj2 (Nat.leb_le 1 (length id1))) by lia.
  rewrite (proj2 (Nat.leb_le 1 (length id2))) by lia.
  rewrite (proj2 (Nat.leb_le 7 (length id1))) by lia.
  rewrite (proj2 (Nat.leb_le 7 (length id2))) by lia.
  rewrite (proj2 (Nat.leb_le 9 (length id1))) by lia.
  rewrite (proj2 (Nat.leb_le 9 (length id2))) by lia.
  reflexivity.
Qed.

Lemma confidence_score_reads_positions_witness :
  calculate_egyptian_id_confidence_score basic_unicode (py "29901230112345") =
  calculate_egyptian_id_confidence_score basic_unicode (py "27701230199999").
Proof.
  apply (confidence_score_reads_positions basic_unicode
           (py "29901230112345") (py "27701230199999")); try reflexivity.
  - cbn; lia.
  - cbn; lia.
Defined.

End ScoreFacts.

(* ================================================================== *)
(** ** More facts about validation, selection and scan *)

Module SelectionFacts.
Import Transform Scoring Scanner Observations ScoringFacts ScannerFacts.

(** *** Extracted digits *)

Lemma translation_cases c :
  ((1632 <= c <= 1641)%N /\ arabic_to_ascii_translation c = (c - 1632 + 48)%N) \/
  ((1776 <= c <= 1785)%N /\ arabic_to_ascii_translation c = (c - 1776 + 48)%N) \/
  (((c < 1632)%N \/ (1641 < c)%N) /\ ((c < 1776)%N \/ (1785 < c)%N) /\
   arabic_to_ascii_translation c = c).
Proof.
  unfold arabic_to_ascii_translation.
  destruct (N.leb_spec 1632 c), (N.leb_spec c 1641),
           (N.leb_spec 1776 c), (N.leb_spec c 1785); cbn [andb];
    first [ left; split; [lia | reflexivity]
          | right; left; split; [lia | reflexivity]
          | right; right; split; [lia | split; [lia | reflexivity]] ].
Qed.

Lemma translation_outside c :
  ((c < 1632)%N \/ (1641 < c)%N) -> ((c < 1776)%N \/ (1785 < c)%N) ->
  arabic_to_ascii_translation c = c.
Proof.
  intros H1 H2.
  destruct (translation_cases c) as [[H _] | [[H _] | (_ & _ & H)]];
    [lia | lia | exact H].
Qed.

Lemma translation_fixed c :
  arabic_to_ascii_translation (arabic_to_ascii_translation c)
  = arabic_to_ascii_translation c.
Proof.
  destruct (translation_cases c) as [[H ->] | [[H ->] | (H1 & H2 & ->)]];
    apply translation_outside; lia.
Qed.

Lemma translation_of_known_digit c :
  is_known_digit c = true ->
  is_ascii_digit (arabic_to_ascii_translation c) = true.
Proof.
  unfold is_known_digit, is_ascii_digit. intros H.
  apply andb_true_iff.
  destruct (translation_cases c) as [[Hc ->] | [[Hc ->] | (H1 & H2 & ->)]].
  - split; apply N.leb_le; lia.
  - split; apply N.leb_le; lia.
  - destruct (N.leb_spec 1632 c), (N.leb_spec c 1641),
             (N.leb_spec 1776 c), (N.leb_spec c 1785); try lia;
      cbn [andb] in H; rewrite ?orb_false_r in H;
      apply andb_true_iff in H; exact H.
Qed.

Section DigitFacts.

Context {image contour lib_error : Type}.
Variable ext : Externals image contour lib_error.

(** X8: the extracted string is made of digit characters only, is never
    longer than the recognized text, and extracting from it again changes
    nothing. *)
Theorem extract_digits_fixed (raw_ocr_text : pystr) :
  forallb (cp_isdigit (unicode ext)) (extract_digits ext raw_ocr_text) = true /\
  (length (extract_digits ext raw_ocr_text) <= length raw_ocr_text)%nat /\
  extract_digits ext (extract_digits ext raw_ocr_text)
    = extract_digits ext raw_ocr_text.
Proof.
  unfold extract_digits. split; [|split].
  - apply forallb_forall. intros c Hc. now apply filter_In in Hc.
  - etransitivity; [apply filter_length_le|]. now rewrite length_map.
  - induction raw_ocr_text as [|c raw IH]; cbn; [reflexivity|].
    destruct (cp_isdigit (unicode ext) (arabic_to_ascii_translation c)) eqn:Hc;
      cbn; [|exact IH].
    rewrite translation_fixed, Hc. now rewrite IH.
Qed.

(** X9: a recognized text made only of ASCII, Arabic-Indic and Extended
    Arabic-Indic digits is kept whole and comes out as ASCII digits, one
    for each character. *)
Theorem extract_digits_of_digits (raw_ocr_text : pystr) :
  forallb is_known_digit raw_ocr_text = true ->
  extract_digits ext raw_ocr_text
    = map arabic_to_ascii_translation raw_ocr_text /\
  length (extract_digits ext raw_ocr_text) = length raw_ocr_text /\
  forallb is_ascii_digit (extract_digits ext raw_ocr_text) = true.
Proof.
  intros H.
  assert (Hmap : forallb is_ascii_digit
                   (map arabic_to_ascii_translation raw_ocr_text) = true).
  { apply forallb_forall. intros c Hc. apply in_map_iff in Hc as (c0 & <- & Hc0).
    apply translation_of_known_digit.
    rewrite forallb_forall in H. now apply H. }
  assert (Heq : extract_digits ext raw_ocr_text
                = map arabic_to_ascii_translation raw_ocr_text).
  { unfold extract_digits.
    induction (map arabic_to_ascii_translation raw_ocr_text) as [|c l IH];
      cbn; [reflexivity|].
    cbn in Hmap. apply andb_true_iff in Hmap as [Hc Hl].
    rewrite (ascii_digit_isdigit (unicode ext) c Hc). now rewrite IH. }
  rewrite Heq. split; [reflexivity|]. split; [apply length_map | exact Hmap].
Qed.

End DigitFacts.

(** *** Counting events *)

Section TraceFacts.

Context {image contour lib_error : Type}.
Variable ext : Externals image contour lib_error.

Lemma count_app (f : event image lib_error -> bool) a b :
  count f (a ++ b) = (count f a + count f b)%nat.
Proof. unfold count. now rewrite filter_app, length_app. Qed.

Ltac count_small :=
  repeat match goal with
         | |- context [count ?f [?e]] =>
             let v := eval cbv in (count f [e]) in
             change (count f [e]) with v
         | |- context [count ?f []] =>
             change (count f []) with 0%nat
         end.

Lemma attempt_events_counts full q :
  count is_correction (attempt_events ext full q) = 1%nat /\
  (count is_ocr_call (attempt_events ext full q) <= 2)%nat /\
  count is_imwrite (attempt_events ext full q) = 0%nat /\
  count is_fallback_warning (attempt_events ext full q) = 0%nat.
Proof.
  unfold attempt_events, ocr_events, recognized_text.
  destruct (warp ext full q) as [e | corrected]; [cbn; repeat split; lia|].
  cbv zeta.
  destruct (image_to_string ext _ AraNumber);
    [destruct (image_to_string ext _ AraEngWhitelist)|];
    cbn; repeat split; lia.
Qed.

Lemma loop_events_counts full contours :
  (count is_correction (loop_events ext full contours) <= length contours)%nat /\
  (count is_ocr_call (loop_events ext full contours) <= 2 * length contours)%nat /\
  count is_imwrite (loop_events ext full contours) = 0%nat /\
  count is_fallback_warning (loop_events ext full contours) = 0%nat.
Proof.
  induction contours as [|c l (IH1 & IH2 & IH3 & IH4)].
  - cbn. repeat split; lia.
  - unfold loop_events in *. cbn [flat_map length]. rewrite !count_app.
    destruct (is_quadrilateral ext c).
    + destruct (attempt_events_counts full (approxPolyDP ext c))
        as (H1 & H2 & H3 & H4).
      rewrite H1, H3, H4. repeat split; lia.
    + cbn. repeat split; lia.
Qed.

Lemma length_evaluated full contours :
  (length (evaluated ext full contours) <= length contours)%nat.
Proof.
  induction contours as [|c l IH]; cbn; [lia|].
  destruct (passes_gate ext full c); cbn; lia.
Qed.

Lemma length_largest_contours edges :
  (length (largest_contours ext edges) <= 5)%nat.
Proof. unfold largest_contours. apply firstn_le_length. Qed.

Lemma find_of_exists {A} (f : A -> bool) l c :
  In c l -> f c = true -> exists c', find f l = Some c'.
Proof.
  intros Hin Hc. destruct (find f l) as [c'|] eqn:Hf; [now exists c'|].
  rewrite (find_none f l Hf c Hin) in Hc. discriminate.
Qed.

(** The events [find_best_card_contour] adds to the trace. *)
Lemma find_best_card_contour_events edges full (t : list (event image lib_error)) :
  exists tail,
    snd (find_best_card_contour ext edges full t) =
      t ++ FindContours edges
        :: loop_events ext full
             (evaluated ext full (largest_contours ext edges)) ++ tail /\
    (tail = [] \/ tail = [Print WarningFallback]) /\
    (tail = [Print WarningFallback] <->
     find (passes_gate ext full) (largest_contours ext edges) = None /\
     find (is_quadrilateral ext) (largest_contours ext edges) <> None).
Proof.
  rewrite find_best_card_contour_run. cbv zeta.
  destruct (find (passes_gate ext full) (largest_contours ext edges)) as [c|].
  - exists []. rewrite app_nil_r. cbn [snd].
    repeat split; auto; try discriminate. intros [H _]. discriminate.
  - destruct (find (is_quadrilateral ext) (largest_contours ext edges)) as [c|].
    + exists [Print WarningFallback]. cbn [snd]. rewrite <- app_assoc. cbn [app].
      repeat split; auto. discriminate.
    + exists []. rewrite app_nil_r. cbn [snd].
      repeat split; auto; try discriminate. intros [_ H]. congruence.
Qed.

Lemma selection_events_no_write edges full (t : list (event image lib_error)) :
  exists new,
    snd (find_best_card_contour ext edges full t) = t ++ new /\
    filter is_imwrite new = [].
Proof.
  destruct (find_best_card_contour_events edges full t)
    as (tail & Htrace & Htail & _).
  eexists. split; [exact Htrace|].
  destruct (loop_events_counts full
              (evaluated ext full (largest_contours ext edges)))
    as (_ & _ & H3 & _).
  cbn [filter is_imwrite]. rewrite filter_app.
  unfold count in H3. destruct (filter is_imwrite (loop_events _ _ _));
    [|discriminate].
  destruct Htail as [-> | ->]; reflexivity.
Qed.

(** *** Selection *)

(** X10: the contour returned by [find_best_card_contour] has exactly four
    corners and is the approximation of one of the five largest detected
    contours. *)
Theorem selected_contour_has_four_corners
    edges full (t t' : list (event image lib_error)) best :
  find_best_card_contour ext edges full t = (inr best, t') ->
  length best = 4%nat /\
  exists c,
    In c (largest_contours ext edges) /\
    In c (findContours ext edges) /\
    best = approxPolyDP ext c.
Proof.
  rewrite find_best_card_contour_run. cbv zeta. intros H.
  assert (Hc : exists c, In c (largest_contours ext edges) /\
                         is_quadrilateral ext c = true /\
                         best = approxPolyDP ext c).
  { destruct (find (passes_gate ext full) (largest_contours ext edges))
      as [c|] eqn:Hp.
    - injection H as <- _. apply find_some in Hp as [Hin Hp].
      exists c. split; [exact Hin|]. split; [|reflexivity].
      now apply (passes_gate_is_quadrilateral ext full).
    - destruct (find (is_quadrilateral ext) (largest_contours ext edges))
        as [c|] eqn:Hq; [|discriminate].
      injection H as <- _. apply find_some in Hq as [Hin Hq].
      now exists c. }
  destruct Hc as (c & Hin & Hq & ->).
  split; [now apply Nat.eqb_eq|].
  exists c. split; [exact Hin|]. split; [|reflexivity].
  unfold largest_contours in Hin. apply In_firstn in Hin.
  clear - Hin. induction (findContours ext edges) as [|a l IH];
    cbn in Hin; [destruct Hin|].
  apply In_insert_by_area in Hin as [-> | Hin]; [now left | right; auto].
Qed.

(** X11: one call of [find_best_card_contour] makes at most five
    perspective corrections and at most ten text recognitions, and writes
    no file. *)
Theorem selection_effort edges full (t : list (event image lib_error)) :
  exists new,
    snd (find_best_card_contour ext edges full t) = t ++ new /\
    (count is_correction new <= 5)%nat /\
    (count is_ocr_call new <= 10)%nat /\
    count is_imwrite new = 0%nat.
Proof.
  destruct (find_best_card_contour_events edges full t)
    as (tail & Htrace & Htail & _).
  eexists. split; [exact Htrace|].
  change (FindContours edges :: ?l) with ([FindContours edges] ++ l).
  rewrite !count_app.
  destruct (loop_events_counts full
              (evaluated ext full (largest_contours ext edges)))
    as (H1 & H2 & H3 & _).
  pose proof (length_evaluated full (largest_contours ext edges)) as Hev.
  pose proof (length_largest_contours edges) as Hl.
  rewrite H3.
  destruct Htail as [-> | ->]; count_small; repeat split; lia.
Qed.

(** X12: the fallback warning is printed exactly when a contour is
    returned although no candidate passed the validity gate. *)
Theorem fallback_warning_iff_not_validated
    edges full (t : list (event image lib_error)) :
  exists new,
    snd (find_best_card_contour ext edges full t) = t ++ new /\
    (count is_fallback_warning new = 1%nat <->
     (exists best, fst (find_best_card_contour ext edges full t) = inr best) /\
     forall c, In c (largest_contours ext edges) ->
               passes_gate ext full c = false) /\
    (count is_fallback_warning new = 0%nat \/
     count is_fallback_warning new = 1%nat).
Proof.
  destruct (find_best_card_contour_events edges full t)
    as (tail & Htrace & Htail & Hiff).
  eexists. split; [exact Htrace|].
  change (FindContours edges :: ?l) with ([FindContours edges] ++ l).
  rewrite !count_app.
  destruct (loop_events_counts full
              (evaluated ext full (largest_contours ext edges)))
    as (_ & _ & _ & H4).
  rewrite H4.
  rewrite find_best_card_contour_run. cbv zeta.
  destruct Htail as [-> | ->]; count_small; cbn [Nat.add].
  - split; [|now left]. split; [discriminate|].
    intros [[best Hbest] Hnone]. exfalso.
    assert (Hn : [] = [Print WarningFallback] :> list (event image lib_error)).
    { apply Hiff. split.
      - destruct (find (passes_gate ext full) (largest_contours ext edges))
          as [c|] eqn:Hp; [|reflexivity].
        apply find_some in Hp as [Hin Hp]. rewrite (Hnone c Hin) in Hp.
        discriminate.
      - intros Hq. rewrite Hq in Hbest.
        destruct (find (passes_gate ext full) (largest_contours ext edges))
          as [c|] eqn:Hp; [|discriminate].
        apply find_some in Hp as [Hin Hp]. rewrite (Hnone c Hin) in Hp.
        discriminate. }
    discriminate.
  - split; [|now right]. split; [intros _|reflexivity].
    destruct (proj1 Hiff eq_refl) as [Hp Hq]. rewrite Hp.
    destruct (find (is_quadrilateral ext) (largest_contours ext edges))
      as [c|]; [|congruence].
    split; [now exists (approxPolyDP ext c)|].
    intros c' Hin. now apply (find_none _ _ Hp).
Qed.

(** *** Validation *)

(** X13: [validate_id_number_region] asks Tesseract for the whitelist
    reading only after the [ara_number] reading has raised, and it raises
    only when both readings raise, with the error of the second. *)
Theorem validation_raises_when_both_readings_fail
    card (t : list (event image lib_error)) :
  (forall e,
     fst (validate_id_number_region ext card t) = inl e <->
     exists e1 e2,
       image_to_string ext (id_number_region ext card) AraNumber = inl e1 /\
       image_to_string ext (id_number_region ext card) AraEngWhitelist = inl e2 /\
       e = LibraryError e2) /\
  snd (validate_id_number_region ext card t) =
    t ++ ImageToString (id_number_region ext card) AraNumber
      :: match image_to_string ext (id_number_region ext card) AraNumber with
         | inr _ => []
         | inl _ => [ImageToString (id_number_region ext card) AraEngWhitelist]
         end.
Proof.
  rewrite validate_id_number_region_run. cbn [fst snd].
  split; [|reflexivity].
  intros e. unfold recognized_text.
  destruct (image_to_string ext (id_number_region ext card) AraNumber)
    as [e1 | text1].
  - destruct (image_to_string ext (id_number_region ext card) AraEngWhitelist)
      as [e2 | text2].
    + split.
      * intros [= <-]. now exists e1, e2.
      * intros (e1' & e2' & _ & [= <-] & ->). reflexivity.
    + split; [discriminate|]. intros (e1' & e2' & _ & H & _). discriminate.
  - split; [discriminate|]. intros (e1' & e2' & H & _). discriminate.
Qed.

(** *** The ranking *)

Lemma insert_by_area_permutation c l :
  Permutation (c :: l) (insert_by_area ext c l).
Proof.
  induction l as [|d l IH]; cbn; [apply Permutation_refl|].
  destruct (contourArea ext c <? contourArea ext d).
  - apply (perm_trans (perm_swap d c l)). now apply perm_skip.
  - apply Permutation_refl.
Qed.

Lemma sorted_by_area_permutation l : Permutation l (sorted_by_area ext l).
Proof.
  induction l as [|c l IH]; cbn; [constructor|].
  apply (perm_trans (perm_skip c IH)). apply insert_by_area_permutation.
Qed.

Lemma sorted_across {A} (R : A -> A -> Prop) a b :
  StronglySorted R (a ++ b) ->
  forall x y, In x a -> In y b -> R x y.
Proof.
  induction a as [|h a IH]; cbn; intros Hs x y Hx Hy; [destruct Hx|].
  inversion Hs as [|? ? Hs' Hall]; subst.
  destruct Hx as [<- | Hx].
  - rewrite Forall_forall in Hall. apply Hall, in_or_app. now right.
  - now apply IH.
Qed.

(** X14: the candidates are the five detected contours of largest area
    (all of them when fewer are detected), largest first: the detected
    contours are the candidates and a remainder, and no contour of the
    remainder has a larger area than a candidate. *)
Theorem largest_contours_are_the_largest edges :
  exists rest,
    Permutation (findContours ext edges) (largest_contours ext edges ++ rest) /\
    length (largest_contours ext edges)
      = Nat.min 5 (length (findContours ext edges)) /\
    StronglySorted (fun a b => contourArea ext b <= contourArea ext a)
      (largest_contours ext edges) /\
    forall c c', In c (largest_contours ext edges) -> In c' rest ->
                 contourArea ext c' <= contourArea ext c.
Proof.
  exists (skipn 5 (sorted_by_area ext (findContours ext edges))).
  unfold largest_contours. rewrite firstn_skipn.
  split; [apply sorted_by_area_permutation|].
  split.
  { rewrite length_firstn.
    now rewrite (Permutation_length (sorted_by_area_permutation (findContours ext edges))). }
  split; [apply firstn_sorted, sorted_by_area_sorted|].
  intros c c' Hc Hc'.
  apply (sorted_across (fun a b => contourArea ext b <= contourArea ext a)
           (firstn 5 (sorted_by_area ext (findContours ext edges)))
           (skipn 5 (sorted_by_area ext (findContours ext edges)))); auto.
  rewrite firstn_skipn. apply sorted_by_area_sorted.
Qed.

(** *** The scan *)

(** The events of steps 1 to 5: no file is written. *)
Lemma detect_and_correct_events path (t : list (event image lib_error)) :
  exists new,
    snd (detect_and_correct ext path t) = t ++ new /\
    filter is_imwrite new = [].
Proof.
  rewrite detect_and_correct_run.
  destruct (imread ext path) as [full|]; [|now exists [Imread path]].
  destruct (resize_to_processing_height ext full) as [le | small];
    [now exists [Imread path]|].
  set (edges := detect_edges ext small).
  destruct (selection_events_no_write edges full (t ++ [Imread path]))
    as (new1 & Htrace & Hnone).
  destruct (find_best_card_contour ext edges full (t ++ [Imread path]))
    as [[e | best] t1]; cbn [snd] in *; subst t1.
  - exists (Imread path :: new1). rewrite <- app_assoc. now split.
  - exists (Imread path :: new1 ++ [PerspectiveCorrection full best]).
    rewrite <- !app_assoc. split; [reflexivity|].
    cbn [filter is_imwrite]. now rewrite filter_app, Hnone.
Qed.

(** X15: a scan that fails writes no file; a scan that succeeds writes
    exactly one file, the image it returns, under the name
    [temp_<side>.jpg], and its card side is front or back. *)
Theorem scan_writes path side (t : list (event image lib_error)) :
  exists new,
    snd (scan_id_card ext path side t) = t ++ new /\
    match fst (scan_id_card ext path side t) with
    | inl _ => filter is_imwrite new = []
    | inr img =>
        filter is_imwrite new
          = [Imwrite ("temp_" ++ side ++ ".jpg")%string img] /\
        (side = "front"%string \/ side = "back"%string)
    end.
Proof.
  rewrite scan_id_card_by_stages.
  destruct (detect_and_correct_events path t) as (new & Htrace & Hnone).
  destruct (detect_and_correct ext path t) as [[e | final] t'];
    cbn [snd] in Htrace; subst t'.
  - now exists new.
  - destruct (String.eqb_spec side "front") as [-> | Hf].
    + eexists. rewrite <- app_assoc. split; [reflexivity|]. cbn [fst].
      rewrite filter_app, Hnone. split; [reflexivity | now left].
    + destruct (String.eqb_spec side "back") as [-> | Hb].
      * eexists. rewrite <- app_assoc. split; [reflexivity|]. cbn [fst].
        rewrite filter_app, Hnone. split; [reflexivity | now right].
      * now exists new.
Qed.

(** X16: when the image loads, the card side is front or back and one of
    the candidates passes the validity gate, the scan succeeds: the final
    perspective correction repeats a correction that succeeded in the
    loop, and the result is the resized correction of a candidate that
    passes the gate. *)
Theorem scan_succeeds_with_valid_candidate
    path side full small c (t : list (event image lib_error)) :
  imread ext path = Some full ->
  resize_to_processing_height ext full = inr small ->
  side = "front"%string \/ side = "back"%string ->
  In c (largest_contours ext (detect_edges ext small)) ->
  passes_gate ext full c = true ->
  exists c' corrected t',
    In c' (largest_contours ext (detect_edges ext small)) /\
    passes_gate ext full c' = true /\
    warp ext full (approxPolyDP ext c') = inr corrected /\
    scan_id_card ext path side t = (inr (resize_to_card ext corrected), t').
Proof.
  intros Hread Hsize Hside Hin Hpass.
  destruct (find_of_exists _ _ c Hin Hpass) as [c' Hfind].
  pose proof (find_some _ _ Hfind) as [Hin' Hpass'].
  assert (Hwarp : exists corrected,
             warp ext full (approxPolyDP ext c') = inr corrected).
  { unfold passes_gate in Hpass'.
    destruct (warp ext full (approxPolyDP ext c')) as [e | corrected];
      [now rewrite andb_false_r in Hpass' | now exists corrected]. }
  destruct Hwarp as [corrected Hwarp].
  exists c', corrected.
  rewrite scan_id_card_by_stages, detect_and_correct_run, Hread, Hsize,
    find_best_card_contour_run.
  cbv zeta. rewrite Hfind, Hwarp.
  destruct Hside as [-> | ->]; cbn; eexists; repeat split; auto.
Qed.

(** X22: with the card sides front and back, the only ones the callers
    pass, the scan fails exactly when one of the steps before the save
    fails, with the error of that step; the invalid-card-side error is
    never raised. *)
Theorem scan_with_known_side path side (t : list (event image lib_error)) :
  side = "front"%string \/ side = "back"%string ->
  (forall e t',
     scan_id_card ext path side t = (inl e, t') <->
     detect_and_correct ext path t = (inl e, t')) /\
  (forall final t',
     detect_and_correct ext path t = (inr final, t') ->
     fst (scan_id_card ext path side t) = inr final).
Proof.
  intros Hside. rewrite scan_id_card_by_stages.
  destruct (detect_and_correct ext path t) as [[e0 | final0] t0].
  - split; [tauto | discriminate].
  - split.
    + intros e t'. destruct Hside as [-> | ->]; cbn; split; discriminate.
    + intros final t' [= -> ->]. destruct Hside as [-> | ->]; reflexivity.
Qed.

End TraceFacts.

(** *** The facts on concrete externals *)

Lemma extract_digits_of_digits_witness :
  extract_digits world_two_valid [1634; 1641; 1785; 48; 49]%N
    = map arabic_to_ascii_translation [1634; 1641; 1785; 48; 49]%N /\
  length (extract_digits world_two_valid [1634; 1641; 1785; 48; 49]%N)
    = length [1634; 1641; 1785; 48; 49]%N /\
  forallb is_ascii_digit
    (extract_digits world_two_valid [1634; 1641; 1785; 48; 49]%N) = true.
Proof.
  apply (extract_digits_of_digits world_two_valid [1634; 1641; 1785; 48; 49]%N).
  reflexivity.
Defined.

Lemma selected_contour_has_four_corners_witness :
  length quad_card = 4%nat /\
  exists c,
    In c (largest_contours world_two_valid []) /\
    In c (findContours world_two_valid []) /\
    quad_card = approxPolyDP world_two_valid c.
Proof.
  apply (selected_contour_has_four_corners world_two_valid [] [] []
           (snd (find_best_card_contour world_two_valid [] [] [])) quad_card).
  vm_compute. reflexivity.
Defined.

Lemma scan_succeeds_with_valid_candidate_witness :
  exists c' corrected t',
    In c' (largest_contours world_two_valid
             (detect_edges world_two_valid [])) /\
    passes_gate world_two_valid [] c' = true /\
    warp world_two_valid [] (approxPolyDP world_two_valid c') = inr corrected /\
    scan_id_card world_two_valid "a.jpg" "front" []
      = (inr (resize_to_card world_two_valid corrected), t').
Proof.
  apply (scan_succeeds_with_valid_candidate world_two_valid
           "a.jpg" "front" [] [] (40000, quad_card) []).
  - reflexivity.
  - reflexivity.
  - now left.
  - cbn. tauto.
  - reflexivity.
Defined.

Lemma scan_with_known_side_witness :
  fst (scan_id_card world_two_valid "a.jpg" "back" []) = inr quad_card.
Proof.
  apply (proj2 (scan_with_known_side world_two_valid "a.jpg" "back" []
                  (or_intror eq_refl))
           quad_card (snd (detect_and_correct world_two_valid "a.jpg" []))).
  vm_compute. reflexivity.
Defined.

End SelectionFacts.

(* ================================================================== *)
(** ** Facts about the thresholds of the edge detector *)

Module PreprocessFacts.
Import Scoring Preprocess.

Example threshold_literals_nearest :
  nearest_binary64 66 100 float_0_66 = true /\
  nearest_binary64 133 100 float_1_33 = true /\
  nearest_binary64 25500 100 float_255 = true.
Proof. repeat split. Qed.

Lemma thresholds_exact_all :
  forallb thresholds_exact (map Z.of_nat (seq 0 511)) = true.
Proof. vm_compute. reflexivity. Qed.

(** X17: for every median of a byte image ([k / 2] with [k] from 0 to
    510) the two thresholds are computed without error: the lower one is
    the integer part of [0.66 * median], the upper one the integer part of
    [1.33 * median] capped at 255, although the products are rounded
    floating-point numbers; and [0 <= lower <= upper <= 255]. *)
Theorem canny_thresholds_exact (k : Z) :
  0 <= k <= 510 ->
  exists lower upper,
    canny_lower_threshold (half k) = Some lower /\
    canny_upper_threshold (half k) = Some upper /\
    lower = (33 * k) / 100 /\
    upper = Z.min 255 ((133 * k) / 200) /\
    0 <= lower <= upper /\ upper <= 255.
Proof.
  intros Hk.
  pose proof thresholds_exact_all as Hall.
  rewrite forallb_forall in Hall.
  assert (Hin : In k (map Z.of_nat (seq 0 511))).
  { apply in_map_iff. exists (Z.to_nat k). split; [lia|].
    apply in_seq. lia. }
  specialize (Hall k Hin). unfold thresholds_exact in Hall.
  destruct (canny_lower_threshold (half k)) as [lower|]; [|discriminate].
  destruct (canny_upper_threshold (half k)) as [upper|]; [|discriminate].
  exists lower, upper.
  repeat rewrite andb_true_iff in Hall.
  destruct Hall as ((((H1 & H2) & H3) & H4) & H5).
  apply Z.eqb_eq in H1, H2. apply Z.leb_le in H3, H4, H5.
  repeat split; auto.
Qed.

Lemma canny_thresholds_exact_witness :
  exists lower upper,
    canny_lower_threshold (half 255) = Some lower /\
    canny_upper_threshold (half 255) = Some upper /\
    lower = (33 * 255) / 100 /\
    upper = Z.min 255 ((133 * 255) / 200) /\
    0 <= lower <= upper /\ upper <= 255.
Proof. apply (canny_thresholds_exact 255). lia. Defined.

End PreprocessFacts.

(* ================================================================== *)
(** ** Facts about gender.py *)

Module GenderFacts.
Import Scoring ScoringFacts Gender.

Lemma by_parity_even d : by_parity d = if N.even d then female else male.
Proof.
  unfold by_parity. destruct (N.even d) eqn:He.
  - apply N.even_spec in He as [m ->].
    now rewrite N.mul_comm, N.Div0.mod_mul.
  - assert (Ho : N.odd d = true) by (rewrite <- N.negb_even, He; reflexivity).
    apply N.odd_spec in Ho as [m ->].
    now rewrite N.add_comm, N.mul_comm, N.Div0.mod_add.
Qed.

(** X18: [gen] answers unknown for every string shorter than 13
    characters; for a longer string whose character at position 12 is an
    ASCII digit it answers female when the digit is even and male when it
    is odd; and it never answers anything but these three words. *)
Theorem gen_by_thirteenth_digit (U : UnicodeData) (id_str : pystr) :
  ((length id_str < 13)%nat -> gen U id_str = unknown) /\
  (forall c,
     nth_error id_str 12 = Some c ->
     is_ascii_digit c = true ->
     gen U id_str = if N.even (c - 48) then female else male) /\
  (gen U id_str = unknown \/ gen U id_str = female \/ gen U id_str = male).
Proof.
  assert (Hpar : forall d, by_parity d = female \/ by_parity d = male).
  { intros d. unfold by_parity. destruct (d mod 2 =? 0)%N; auto. }
  split; [|split].
  - intros Hlen. unfold gen.
    rewrite (proj2 (Nat.ltb_lt _ _) Hlen). now rewrite orb_true_r.
  - intros c Hnth Hc. unfold gen.
    assert (Hlen : (12 < length id_str)%nat)
      by (apply nth_error_Some; congruence).
    destruct id_str as [|c0 rest]; [cbn in Hlen; lia|].
    rewrite (proj2 (Nat.ltb_ge _ _)) by lia. cbn [orb].
    rewrite Hnth, (ascii_digit_decimal U c Hc).
    now rewrite by_parity_even.
  - unfold gen.
    destruct (_ || _); [now left|].
    destruct (nth_error id_str 12) as [c|]; [|now left].
    destruct (cp_decimal U c) as [d|]; [right; apply Hpar|].
    destruct (dict_get arabic_indic_map c) as [d|]; [right; apply Hpar | now left].
Qed.

Lemma gen_by_thirteenth_digit_witness :
  gen basic_unicode (py "123456789012") = unknown /\
  gen basic_unicode (py "29901230112345") = female /\
  gen basic_unicode (py "29901230112335") = male.
Proof.
  split; [|split].
  - apply (proj1 (gen_by_thirteenth_digit basic_unicode (py "123456789012"))).
    cbn; lia.
  - apply (proj1 (proj2 (gen_by_thirteenth_digit basic_unicode
                           (py "29901230112345"))) 52%N); reflexivity.
  - apply (proj1 (proj2 (gen_by_thirteenth_digit basic_unicode
                           (py "29901230112335"))) 51%N); reflexivity.
Defined.

End GenderFacts.

(* ================================================================== *)
(** ** Facts about the normalization of the fields *)

Module ExtractorFacts.
Import Scoring Extractor.

Lemma starts_with_trans a b h :
  starts_with a b = true -> starts_with b h = true -> starts_with a h = true.
Proof.
  revert b h. induction a as [|x a IH]; intros b h Hab Hbh; [reflexivity|].
  destruct b as [|y b]; [discriminate|].
  destruct h as [|z h]; [discriminate|].
  cbn in *. apply andb_true_iff in Hab as [Hxy Hab].
  apply andb_true_iff in Hbh as [Hyz Hbh].
  apply N.eqb_eq in Hxy, Hyz. subst.
  rewrite N.eqb_refl. cbn. now apply (IH b h).
Qed.

(** A word occurs wherever a longer word that begins with it occurs. *)
Lemma contains_of_prefix a b h :
  starts_with a b = true -> contains b h = true -> contains a h = true.
Proof.
  intros Hab. induction h as [|z h IH]; cbn; intros H.
  - rewrite orb_false_r in *. now apply (starts_with_trans a b []).
  - apply orb_true_iff in H as [H | H]; apply orb_true_iff.
    + left. now apply (starts_with_trans a b (z :: h)).
    + right. now apply IH.
Qed.

Lemma normalize_religion_cases full_text :
  _normalize_religion_text full_text =
  if contains muslim full_text then muslim
  else if contains christian full_text || contains christian_variant full_text
       then christian
       else unspecified.
Proof.
  unfold _normalize_religion_text, religion_mappings. cbn [first_variant].
  destruct (contains muslim full_text) eqn:Hm; [reflexivity|].
  destruct (contains muslim_feminine full_text) eqn:Hmf.
  { apply (contains_of_prefix muslim) in Hmf; [congruence | reflexivity]. }
  destruct (contains christian full_text) eqn:Hc; [reflexivity|].
  destruct (contains christian_variant full_text) eqn:Hcv; [reflexivity|].
  destruct (contains christian_feminine full_text) eqn:Hcf; [|reflexivity].
  apply (contains_of_prefix christian) in Hcf; [congruence | reflexivity].
Qed.

Lemma normalize_marital_status_cases full_text :
  _normalize_marital_status_text full_text =
  if contains miss full_text then miss
  else if contains single full_text then single
  else if contains married full_text then married
  else unspecified.
Proof.
  unfold _normalize_marital_status_text, marital_status_mappings.
  cbn [first_variant].
  destruct (contains miss full_text); [reflexivity|].
  destruct (contains single full_text); [reflexivity|].
  destruct (contains married full_text) eqn:Hm; [reflexivity|].
  destruct (contains married_feminine full_text) eqn:Hmf; [|reflexivity].
  apply (contains_of_prefix married) in Hmf; [congruence | reflexivity].
Qed.

(** X19: [_normalize_religion_text] answers the masculine word for Muslim
    whenever it occurs, else the masculine word for Christian when one of
    its two spellings occurs, else "not specified".  The feminine words of
    the table are never answered, since each begins with a masculine word
    that is tested before it. *)
Theorem normalize_religion_never_feminine (full_text : pystr) :
  _normalize_religion_text full_text =
    (if contains muslim full_text then muslim
     else if contains christian full_text
             || contains christian_variant full_text
          then christian
          else unspecified) /\
  _normalize_religion_text full_text <> muslim_feminine /\
  _normalize_religion_text full_text <> christian_feminine.
Proof.
  rewrite normalize_religion_cases. split; [reflexivity|].
  destruct (contains muslim full_text);
    [|destruct (contains christian full_text || contains christian_variant full_text)];
    split; discriminate.
Qed.

(** X20: [_normalize_marital_status_text] never answers the feminine word
    for married: a text in which it occurs contains the masculine word,
    which is tested first. *)
Theorem normalize_marital_status_never_married_feminine (full_text : pystr) :
  _normalize_marital_status_text full_text =
    (if contains miss full_text then miss
     else if contains single full_text then single
     else if contains married full_text then married
     else unspecified) /\
  _normalize_marital_status_text full_text <> married_feminine /\
  (contains married_feminine full_text = true ->
   contains miss full_text = false ->
   contains single full_text = false ->
   _normalize_marital_status_text full_text = married).
Proof.
  rewrite normalize_marital_status_cases. split; [reflexivity|]. split.
  - destruct (contains miss full_text); [discriminate|].
    destruct (contains single full_text); [discriminate|].
    destruct (contains married full_text); discriminate.
  - intros Hmf -> ->.
    now rewrite (contains_of_prefix married married_feminine full_text eq_refl Hmf).
Qed.

Lemma normalize_marital_status_never_married_feminine_witness :
  _normalize_marital_status_text
    ([1575; 1604; 1581; 1575; 1604; 1577; 32] ++ married_feminine)%N = married.
Proof.
  apply (proj2 (proj2 (normalize_marital_status_never_married_feminine
           ([1575; 1604; 1581; 1575; 1604; 1577; 32] ++ married_feminine)%N)));
    reflexivity.
Defined.

(** X21: the three normalizations answer words that they map to
    themselves: normalizing an answer again gives the same answer. *)
Theorem normalizations_idempotent (full_text : pystr) :
  _normalize_religion_text (_normalize_religion_text full_text)
    = _normalize_religion_text full_text /\
  _normalize_gender_text (_normalize_gender_text full_text)
    = _normalize_gender_text full_text /\
  _normalize_marital_status_text (_normalize_marital_status_text full_text)
    = _normalize_marital_status_text full_text.
Proof.
  split; [|split].
  - rewrite (normalize_religion_cases full_text).
    destruct (contains muslim full_text);
      [|destruct (contains christian full_text
                  || contains christian_variant full_text)];
      reflexivity.
  - unfold _normalize_gender_text at 2 3.
    destruct (contains male_word full_text);
      [|destruct (contains female_word full_text
                  || contains female_word_variant full_text)];
      reflexivity.
  - rewrite (normalize_marital_status_cases full_text).
    destruct (contains miss full_text); [reflexivity|].
    destruct (contains single full_text); [reflexivity|].
    destruct (contains married full_text); reflexivity.
Qed.

End ExtractorFacts.

